(** * agimus_hpp.trajectory_publisher : the HppOutputQueue node

    A shallow embedding of [src/agimus_hpp/trajectory_publisher.py].

    - Python floats and numpy [float] arrays are kept abstract behind the
      interface [PyFloat]; it has two instances: [binary64] (the kernel's
      IEEE 754 doubles, what the interpreter runs) and [exact] (the
      rationals: the same program with no rounding).
    - [rospy.Time] and [rospy.Duration] are integer nanosecond counts;
      [to_sec] converts them as rospy does, from their seconds and
      nanoseconds.
    - The node is a state ([world]) threaded through a state-and-exception
      monad; every call that leaves the node (clock reads, sleeps, log lines,
      publications, remote calls on the HPP server and on the discretization
      object) is appended to a trace.
    - What the outside decides (the clock, whether a remote call raises, what
      it answers, a [read] served by another callback thread while this one
      sleeps) is given by an [Env]. *)

From Stdlib Require Import ZArith QArith Qround Qabs List Bool Lia Lqa Ascii String.
From Stdlib Require Import Floats SpecFloat.
Import ListNotations.

Set Implicit Arguments.

(** ** Python exceptions and outcomes *)

Inductive exn : Type :=
| TypeError            (* len(None), None[0] *)
| IndexError           (* index out of range *)
| ZeroDivisionError    (* float division by zero *)
| ValueError           (* math.ceil(nan) *)
| OverflowError        (* math.ceil(inf) *)
| UnboundLocalError    (* a local name read before any assignment *)
| RemoteError (what : string).   (* raised by a remote (CORBA / ROS) call *)

Inductive outcome (A : Type) : Type :=
| Return (a : A)
| Raise (e : exn).
Arguments Return {A} a.
Arguments Raise {A} e.

(** ** The arithmetic the node uses *)

Class PyFloat (F : Type) : Type := {
  of_int : Z -> F;              (* float(i) *)
  fadd : F -> F -> F;
  fsub : F -> F -> F;
  fmul : F -> F -> F;
  fdiv : F -> F -> F;           (* IEEE division, as numpy does it *)
  fabs : F -> F;
  flt : F -> F -> bool;
  fle : F -> F -> bool;
  feq : F -> F -> bool;
  ceil : F -> outcome Z         (* int(math.ceil(x)) *)
}.

Declare Scope py_scope.
Delimit Scope py_scope with py.
Infix "+" := fadd : py_scope.
Infix "-" := fsub : py_scope.
Infix "*" := fmul : py_scope.
Infix "/" := fdiv : py_scope.
Infix "<?" := flt : py_scope.
Infix "<=?" := fle : py_scope.
Infix "=?" := feq : py_scope.

(** *** Exact instance: the rationals *)

(** An idealisation, not the arithmetic the node runs on: no rounding, no
    overflow, [ceil] never raises. What is proved on it is said to be in
    exact arithmetic. *)

Definition Qltb (x y : Q) : bool := negb (Qle_bool y x).

#[export] Instance exact : PyFloat Q := {
  of_int := inject_Z;
  fadd := Qplus;
  fsub := Qminus;
  fmul := Qmult;
  fdiv := Qdiv;
  fabs := Qabs;
  flt := Qltb;
  fle := Qle_bool;
  feq := Qeq_bool;
  ceil := fun x => Return (Qceiling x)
}.

(** *** IEEE 754 instance: binary64 *)

(** [float(i)] for a Python integer of any size, rounded to nearest even. *)
Definition float_of_Z (i : Z) : float :=
  SF2Prim (binary_normalize prec emax i 0 false).

(** [int(math.ceil(x))]: [math.ceil] raises on NaN and on infinities. *)
Definition float_ceil (x : float) : outcome Z :=
  match Prim2SF x with
  | S754_zero _ => Return 0%Z
  | S754_infinity _ => Raise OverflowError
  | S754_nan => Raise ValueError
  | S754_finite s m e =>
      let num := if s then Z.neg m else Z.pos m in
      if (0 <=? e)%Z then Return (num * 2 ^ e)%Z
      else Return (- ((- num) / 2 ^ (- e)))%Z
  end.

#[export] Instance binary64 : PyFloat float := {
  of_int := float_of_Z;
  fadd := PrimFloat.add;
  fsub := PrimFloat.sub;
  fmul := PrimFloat.mul;
  fdiv := PrimFloat.div;
  fabs := PrimFloat.abs;
  flt := PrimFloat.ltb;
  fle := PrimFloat.leb;
  feq := PrimFloat.eqb;
  ceil := float_ceil
}.

(** ** The outside world *)

(** Handle on a server-side path object. *)
Definition path := Z.

Inductive kind := Position | Derivative.   (* Discretization.Position, ... *)

Inductive level := Info | Warn | Err.

(** The interpreter: Python 3 unbinds the name of [except ... as e] when the
    clause ends, Python 2 keeps it. *)
Inductive python := Python2 | Python3.

Section Node.

Context {F : Type} `{PyFloat F}.
Local Open Scope py_scope.

(** Calls that leave the process and may raise. *)
Inductive call : Type :=
| Hpp                                    (* self.hpp() *)
| HppTools                               (* self.hpptools() *)
| PathLength (pathId : Z)                (* hpp.problem.pathLength *)
| GetPath (pathId : Z)                   (* hpp.problem.getPath *)
| SetPath (p : path)                     (* discretization.setPath *)
| DeleteServantFromObject (p : path)
| Compute (t : F)                        (* discretization.compute *)
| ResetTopics
| SetJointNames (names : list string)
| GetCenterOfMassComputation (name : string)
| AddCenterOfMass (name : string) (comcomp : path) (k : kind)
| AddOperationalFrame (name : string) (k : kind).

(** An argument of [str.format]. *)
Inductive fmtarg : Type :=
| AInt (i : Z)
| AFloat (x : F)
| AStr (s : string)
| AExn (e : exn).             (* str(e) *)

Inductive event : Type :=
| Call (c : call)
| Now (t : Z)                 (* rospy.Time.now() answered t *)
| Sleep (hz : Z)              (* rate.sleep() of a rospy.Rate(hz) *)
| Log (l : level) (fmt : string) (args : list fmtarg)
| Publish (topic : string).

Record Env : Type := {
  interpreter : python;
  now_at : nat -> Z;                       (* the k-th clock reading, in ns *)
  arrival : nat -> option (list F);        (* a grid stored by a read served
                                              on another thread during the
                                              k-th sleep *)
  fault : nat -> option exn;               (* the k-th remote call raises *)
  path_length : Z -> F;
  get_path : Z -> path;
  com_computation : string -> path;
  add_center_of_mass : string -> kind -> bool;
  add_operational_frame : string -> kind -> bool
}.

(** The node: [self.times] and the counters of what it has consumed from
    the environment. *)
Record world : Type := {
  times : option (list F);
  trace : list event;
  ncalls : nat;
  nreads : nat;
  nsleeps : nat
}.

Definition M (A : Type) : Type := world -> outcome A * world.

Definition ret {A} (a : A) : M A := fun w => (Return a, w).
Definition raise {A} (e : exn) : M A := fun w => (Raise e, w).
Definition bind {A B} (c : M A) (k : A -> M B) : M B :=
  fun w => match c w with
           | (Return a, w') => k a w'
           | (Raise e, w') => (Raise e, w')
           end.
Definition lift {A} (o : outcome A) : M A := fun w => (o, w).

(** [try: c  except Exception as e: h e] *)
Definition try_except {A} (c : M A) (h : exn -> M A) : M A :=
  fun w => match c w with
           | (Return a, w') => (Return a, w')
           | (Raise e, w') => h e w'
           end.

End Node.

Notation "x <- c ;; k" := (bind c (fun x => k))
  (at level 61, c at next level, right associativity).
Notation "c ;; k" := (bind c (fun _ => k))
  (at level 61, right associativity).

(** ** The node's code *)

Section HppOutputQueue.

Context {F : Type} `{PyFloat F}.
Variable env : Env (F := F).
Variable dt : F.                      (* rospy.get_param("/sot_controller/dt") *)
Local Open Scope string_scope.
Local Open Scope py_scope.

Local Abbreviation M := (M (F := F)).

(** [self.frequency = 1. / self.dt] *)
Definition frequency : F := of_int 1 / dt.

(** *** Primitive effects *)

Definition emit (e : event) : M unit :=
  fun w => (Return tt,
            {| times := times w; trace := (trace w ++ [e])%list;
               ncalls := ncalls w; nreads := nreads w; nsleeps := nsleeps w |}).

Definition loginfo (fmt : string) (args : list fmtarg) := emit (Log Info fmt args).
Definition logwarn (fmt : string) (args : list fmtarg) := emit (Log Warn fmt args).
Definition logerr (fmt : string) (args : list fmtarg) := emit (Log Err fmt args).

(** A remote call: recorded, then it raises if the environment says so. *)
Definition remote (c : call) : M unit :=
  fun w =>
    let w' := {| times := times w; trace := (trace w ++ [Call c])%list;
                 ncalls := S (ncalls w); nreads := nreads w;
                 nsleeps := nsleeps w |} in
    match fault env (ncalls w) with
    | Some e => (Raise e, w')
    | None => (Return tt, w')
    end.

Definition remote_val {A} (c : call) (answer : A) : M A :=
  remote c ;; ret answer.

(** [rospy.Time.now()] *)
Definition time_now : M Z :=
  fun w =>
    let t := now_at env (nreads w) in
    (Return t,
     {| times := times w; trace := (trace w ++ [Now t])%list;
        ncalls := ncalls w; nreads := S (nreads w); nsleeps := nsleeps w |}).

(** [rate.sleep()]: the thread yields; a [read] served meanwhile on another
    callback thread stores its grid in [self.times]. *)
Definition rate_sleep (hz : Z) : M unit :=
  fun w =>
    (Return tt,
     {| times := match arrival env (nsleeps w) with
                 | Some g => Some g
                 | None => times w
                 end;
        trace := (trace w ++ [Sleep hz])%list;
        ncalls := ncalls w; nreads := nreads w; nsleeps := S (nsleeps w) |}).

Definition get_times : M (option (list F)) := fun w => (Return (times w), w).

Definition set_times (g : option (list F)) : M unit :=
  fun w => (Return tt,
            {| times := g; trace := trace w; ncalls := ncalls w;
               nreads := nreads w; nsleeps := nsleeps w |}).

(** [len(self.times)] *)
Definition len_times : M nat :=
  ts <- get_times ;;
  match ts with
  | None => raise TypeError
  | Some g => ret (List.length g)
  end.

(** [self.times[n]] for [n >= 0] *)
Definition times_at (n : nat) : M F :=
  ts <- get_times ;;
  match ts with
  | None => raise TypeError
  | Some g => match nth_error g n with
              | Some t => ret t
              | None => raise IndexError
              end
  end.

(** [d.to_sec()] of a [rospy.Duration] of [ns] nanoseconds, which holds
    [secs] and [0 <= nsecs < 10^9]: [float(secs) + float(nsecs) / 1e9]. *)
Definition to_sec (ns : Z) : F :=
  of_int (ns / 1000000000)%Z + of_int (ns mod 1000000000)%Z / of_int 1000000000.

(** Python's [min(a, b)]: [b] when [b < a], else [a]. *)
Definition pymin (a b : F) : F := if b <? a then b else a.

(** *** _read: the time grid *)

(** [range(n)] *)
Definition range (n : Z) : list Z := map Z.of_nat (seq 0 (Z.to_nat n)).

(** [a[-1] = x] *)
Definition set_last (a : list F) (x : F) : outcome (list F) :=
  match a with
  | [] => Raise IndexError
  | _ :: _ => Return (removelast a ++ [x])%list
  end.

(** Lines 202-204: the array of sample times for [N] steps. *)
Definition grid (start L : F) (N : Z) : outcome (list F) :=
  let sgn := of_int (if L <? of_int 0 then -1 else 1) in
  let times := map (fun i => sgn * of_int i / frequency) (range (N + 1)) in
  match set_last times L with
  | Raise e => Raise e
  | Return times => Return (map (fun t => t + start) times)
  end.

(** Consecutive elements are related by [R]. *)
Fixpoint chain (R : F -> F -> bool) (l : list F) : bool :=
  match l with
  | a :: (b :: _) as tl => R a b && chain R tl
  | _ => true
  end.

(** Strictly ascending when the duration is positive or null, strictly
    descending when it is negative. *)
Definition strictly_monotonic (L : F) (l : list F) : bool :=
  if L <? of_int 0 then chain (fun a b => b <? a) l
  else chain (fun a b => a <? b) l.

(** Lines 199-204 without the log line: what [_read] will store. *)
Definition sample_times (start L : F) : outcome (list F) :=
  match ceil (fabs L * frequency) with
  | Raise e => Raise e
  | Return N => grid start L N
  end.

Definition _read (pathId : Z) (start L : F) : M unit :=
  N <- lift (ceil (fabs L * frequency)) ;;
  loginfo "Prepare sampling of path {} (t in [ {}, {} ]) into {} points"
          [AInt pathId; AFloat start; AFloat (start + L); AInt (N + 1)] ;;
  times <- lift (grid start L N) ;;
  remote Hpp ;;
  path <- remote_val (GetPath pathId) (get_path env pathId) ;;
  remote (SetPath path) ;;
  remote HppTools ;;
  remote (DeleteServantFromObject path) ;;
  set_times (Some times).

Definition read (data : Z) : M unit :=
  remote Hpp ;;
  L <- remote_val (PathLength data) (path_length env data) ;;
  _read data (of_int 0) L.

Definition readSub (id : Z) (start length : F) : M unit :=
  _read id start length.

(** *** publishFirst *)

(** The loop of lines 227-229. *)
Fixpoint wait_for_times (count : nat) : M unit :=
  match count with
  | O => ret tt
  | S count' =>
      ts <- get_times ;;
      match ts with
      | None => rate_sleep 1000 ;; wait_for_times count'
      | Some _ => ret tt
      end
  end.

Definition publishFirst : M (bool * string) :=
  ts <- get_times ;;
  match ts with
  | None => logwarn "First message not ready yet. Keep trying during one second." []
  | Some _ => ret tt
  end ;;
  wait_for_times 1000 ;;
  ts <- get_times ;;
  match ts with
  | None =>
      logerr "Could not print first message" [] ;;
      ret (false, "First message not ready yet. Did you call read_path ?")
  | Some _ =>
      t0 <- times_at 0 ;;
      remote (Compute t0) ;;
      ret (true, "")
  end.

(** *** publish *)

(** The local variables of [publish] that the loop updates. *)
Record locals : Type := {
  n : nat;
  nstar : F;
  computation_time : Z;
  now : Z
}.

(** Lines 238-246. *)
Definition publish_enter : M (F * Z * locals) :=
  len <- len_times ;;
  loginfo "Start publishing path (size is {})" [AInt (Z.of_nat len)] ;;
  let advance := of_int 150 / of_int 1000 * frequency in
  len <- len_times ;;
  let nstar := pymin advance (of_int (Z.of_nat len)) in
  start <- time_now ;;
  now <- time_now ;;
  ret (advance, start,
       {| n := 0; nstar := nstar; computation_time := 0; now := now |}).

(** Lines 248-258: one turn of the loop. *)
Definition publish_turn (advance : F) (start : Z) (s : locals) : M locals :=
  s <- (if of_int (Z.of_nat (n s)) <? nstar s then
          prev <- time_now ;;
          t <- times_at (n s) ;;
          remote (Compute t) ;;
          now <- time_now ;;
          ret {| n := S (n s); nstar := nstar s;
                 computation_time := computation_time s + (now - prev);
                 now := now |}
        else
          rate_sleep 100 ;;
          now <- time_now ;;
          ret {| n := n s; nstar := nstar s;
                 computation_time := computation_time s; now := now |}) ;;
  let t := to_sec (now s - start) in
  len <- len_times ;;
  ret {| n := n s;
         nstar := pymin (advance + t * frequency) (of_int (Z.of_nat len));
         computation_time := computation_time s; now := now s |}.

(** Line 247: the loop, for at most [fuel] tests of its condition; [None]
    when they did not suffice. *)
Fixpoint publish_loop (fuel : nat) (advance : F) (start : Z) (s : locals)
  (w : world) : option (outcome locals * world) :=
  match fuel with
  | O => None
  | S fuel' =>
      match len_times w with
      | (Raise e, w') => Some (Raise e, w')
      | (Return len, w') =>
          if (n s <? len)%nat then
            match publish_turn advance start s w' with
            | (Raise e, w'') => Some (Raise e, w'')
            | (Return s', w'') => publish_loop fuel' advance start s' w''
            end
          else Some (Return s, w')
      end
  end.

(** Lines 260-265. *)
Definition publish_leave (s : locals) : M unit :=
  avg <- (if (n s =? 0)%nat then raise ZeroDivisionError
          else ret (to_sec (computation_time s) / of_int (Z.of_nat (n s)))) ;;
  (if dt <=? avg then
     logwarn "The average sampling time of the reference trajectory ({}) is higher than the execution time ({}). Consider subsampling or preprocessing."
             [AFloat avg; AFloat dt]
   else ret tt) ;;
  set_times None ;;
  emit (Publish "publish_done") ;;
  loginfo "Finish publishing queue ({})" [AInt (Z.of_nat (n s))].

Definition publish (fuel : nat) (w : world) : option (outcome unit * world) :=
  match publish_enter w with
  | (Raise e, w1) => Some (Raise e, w1)
  | (Return (advance, start, s), w1) =>
      match publish_loop fuel advance start s w1 with
      | None => None
      | Some (Raise e, w2) => Some (Raise e, w2)
      | Some (Return s', w2) => Some (publish_leave s' w2)
      end
  end.

(** *** Configuration services *)

Definition resetTopics : M unit :=
  remote Hpp ;;
  remote ResetTopics ;;
  loginfo "Reset topics" [].

(** [sub in s] on strings. *)
Fixpoint contains (sub s : string) : bool :=
  prefix sub s
  || match s with
     | EmptyString => false
     | String _ s' => contains sub s'
     end.

Definition setJointNames (names : list string) : M bool :=
  try_except
    (remote Hpp ;;
     let names := filter (fun n => negb (contains "root_joint" n)) names in
     remote (SetJointNames names) ;;
     ret true)
    (fun e =>
       logerr "Could not set joint names: " [AExn e] ;;
       ret false).

(** The name [e] once an [except Exception as e:] clause has ended. *)
Definition after_except (e : exn) : option exn :=
  match interpreter env with
  | Python2 => Some e
  | Python3 => None
  end.

(** [str(e)] where [e] may be unbound. *)
Definition str_of (e : option exn) : M (fmtarg (F := F)) :=
  match e with
  | Some e => ret (AExn e)
  | None => raise UnboundLocalError
  end.

(** The body shared by [addCenterOfMass] and [addCenterOfMassVelocity]. *)
Definition add_com (k : kind) (done failed : string) (value : string) : M bool :=
  r <- try_except
         (remote Hpp ;;
          comcomp <- remote_val (GetCenterOfMassComputation value)
                                (com_computation env value) ;;
          success <- remote_val (AddCenterOfMass value comcomp k)
                                (add_center_of_mass env value k) ;;
          remote HppTools ;;
          remote (DeleteServantFromObject comcomp) ;;
          ret (success, None))
         (fun e => ret (false, after_except e)) ;;
  let '(success, e) := r in
  if success : bool then
    loginfo done [AStr value] ;;
    ret true
  else
    msg <- str_of e ;;
    logerr failed [msg] ;;
    ret false.

Definition addCenterOfMass : string -> M bool :=
  add_com Position "Add COM position topic " "Could not add COM position: ".

Definition addCenterOfMassVelocity : string -> M bool :=
  add_com Derivative "Add COM velocity topic " "Could not add COM velocity: ".

Definition addOperationalFrame (value : string) : M bool :=
  r <- try_except
         (success <- remote_val (AddOperationalFrame value Position)
                                (add_operational_frame env value Position) ;;
          ret (Some success))
         (fun e =>
            logerr "Could not add operational frame pose {}: {}"
                   [AStr value; AExn e] ;;
            ret None) ;;
  match r with
  | None => ret false                    (* returned inside the clause *)
  | Some true =>
      loginfo "Add operational frame pose topic " [AStr value] ;;
      ret true
  | Some false =>
      logerr "Could not add operational frame pose {}: addOperationalFrame failed silently."
             [AStr value] ;;
      ret false
  end.

Definition addOperationalFrameVelocity (value : string) : M bool :=
  r <- try_except
         (success <- remote_val (AddOperationalFrame value Derivative)
                                (add_operational_frame env value Derivative) ;;
          ret (success, None))
         (fun e => ret (false, after_except e)) ;;
  let '(success, e) := r in
  if success : bool then
    loginfo "Add operational frame velocity topic " [AStr value] ;;
    ret true
  else
    msg <- str_of e ;;
    logerr "Could not add operational frame velocity {}: {}" [AStr value; msg] ;;
    ret false.

(** *** getQueueSize *)

Definition getQueueSize : M nat := len_times.

End HppOutputQueue.

(** ** Reading a trace *)

Section Traces.

Context {F : Type} `{PyFloat F}.

(** The arguments of the calls to [discretization.compute], in order. *)
Definition computed (tr : list (event (F := F))) : list F :=
  flat_map (fun e => match e with Call (Compute t) => [t] | _ => [] end) tr.

Definition is_log (l : level) (e : event (F := F)) : bool :=
  match e, l with
  | Log Info _ _, Info | Log Warn _ _, Warn | Log Err _ _, Err => true
  | _, _ => false
  end.

(** Some line was logged at level [l]. *)
Definition logged (l : level) (tr : list (event (F := F))) : bool :=
  existsb (is_log l) tr.

(** Time spent inside [discretization.compute], in ns: for each call, the
    clock reading that follows it minus the one that precedes it. *)
Fixpoint time_in_compute (tr : list (event (F := F))) : Z :=
  match tr with
  | [] => 0
  | e :: rest =>
      match e, rest with
      | Now a, Call (Compute _) :: Now b :: _ =>
          (b - a) + time_in_compute rest
      | _, _ => time_in_compute rest
      end
  end.

(** No read is served on another thread from the [k]-th sleep on. *)
Definition quiet_from (env : Env (F := F)) (k : nat) : Prop :=
  forall j, (k <= j)%nat -> arrival env j = None.

(** No remote call raises from the [k]-th on. *)
Definition reliable_from (env : Env (F := F)) (k : nat) : Prop :=
  forall j, (k <= j)%nat -> fault env j = None.

(** The clock ends up beyond any date. *)
Definition advancing (env : Env (F := F)) : Prop :=
  forall T : Z, exists k, forall j, (k <= j)%nat -> (T <= now_at env j)%Z.

(** The clock never goes back. *)
Definition monotone_clock (env : Env (F := F)) : Prop :=
  forall i j, (i <= j)%nat -> (now_at env i <= now_at env j)%Z.

(** One of the remote calls numbered [a] to [b - 1] raises. *)
Definition raised_between (env : Env (F := F)) (a b : nat) : Prop :=
  exists j e, (a <= j < b)%nat /\ fault env j = Some e.

(** A computation with no handler: a remote call that raises ends it. *)
Definition propagates (env : Env (F := F)) {A} (c : M (F := F) A) : Prop :=
  forall w r w',
    c w = (r, w') ->
    (ncalls w <= ncalls w')%nat
    /\ forall j e, (ncalls w <= j < ncalls w')%nat ->
                   fault env j = Some e -> r = Raise e.

(** A computation that makes no remote call. *)
Definition local {A} (c : M (F := F) A) : Prop :=
  forall w r w', c w = (r, w') -> ncalls w' = ncalls w.

(** What the loop of [publish] leaves in the trace. *)
Definition loop_event (e : event (F := F)) : Prop :=
  match e with
  | Now _ | Sleep _ | Call (Compute _) => True
  | _ => False
  end.

Definition starts_with_call (tr : list (event (F := F))) : Prop :=
  match tr with
  | Call _ :: _ => True
  | _ => False
  end.

(** Log lines and publications. *)
Definition passive (e : event (F := F)) : Prop :=
  match e with
  | Log _ _ _ | Publish _ => True
  | _ => False
  end.

(** The last two events of a [publish] that drained [m] samples. *)
Definition finish (m : nat) : list (event (F := F)) :=
  [Publish "publish_done";
   Log Info "Finish publishing queue ({})" [AInt (Z.of_nat m)]].

(** The states of the loop of [publish] started in [w0]: the one that
    [publish_enter] builds, and those a turn of the loop leads to. *)
Inductive in_publish (env : Env (F := F)) (dt : F) (w0 : world)
  (advance : F) (start : Z) : locals -> world -> Prop :=
| in_publish_enter (s : locals) (w : world) :
    publish_enter env dt w0 = (Return (advance, start, s), w) ->
    in_publish env dt w0 advance start s w
| in_publish_turn (s s' : locals) (w w' : world) (g : list F) :
    in_publish env dt w0 advance start s w ->
    times w = Some g -> (n s < List.length g)%nat ->
    publish_turn env dt advance start s w = (Return s', w') ->
    in_publish env dt w0 advance start s' w'.

(** The node after [count] sleeps at 1000 Hz during which nothing happened. *)
Definition slept (count : nat) (w : world (F := F)) : world :=
  {| times := times w;
     trace := trace w ++ repeat (Sleep 1000) count;
     ncalls := ncalls w; nreads := nreads w;
     nsleeps := nsleeps w + count |}.

(** The node as [__init__] leaves it. *)
Definition idle : world (F := F) :=
  {| times := None; trace := []; ncalls := 0; nreads := 0; nsleeps := 0 |}.

(** The node holding the grid [g]. *)
Definition holding (g : list F) : world :=
  {| times := Some g; trace := []; ncalls := 0; nreads := 0; nsleeps := 0 |}.

End Traces.

(** ** More readings of a trace *)

(** [sub] occurs in [s]: what the test [sub in s] decides. *)
Definition occurs_in (sub s : string) : Prop :=
  exists pre post, s = (pre ++ sub ++ post)%string.

Section MoreTraces.

Context {F : Type} `{PyFloat F}.

(** The remote calls of a trace, in order. *)
Definition calls (tr : list (event (F := F))) : list (call (F := F)) :=
  flat_map (fun e => match e with Call c => [c] | _ => [] end) tr.

(** The topics published on, in order. *)
Definition published (tr : list (event (F := F))) : list string :=
  flat_map (fun e => match e with Publish topic => [topic] | _ => [] end) tr.

(** A computation that, while no read is served on another thread, leaves
    [self.times] alone and publishes nothing. *)
Definition harmless (env : Env (F := F)) {A} (c : M (F := F) A) : Prop :=
  forall w r w',
    quiet_from env (nsleeps w) ->
    c w = (r, w') ->
    times w' = times w
    /\ published (trace w') = published (trace w)
    /\ (nsleeps w <= nsleeps w')%nat.

(** The calls of [addCenterOfMass] ([k] is [Position]) and of
    [addCenterOfMassVelocity] ([k] is [Derivative]), in order. *)
Definition com_calls (env : Env (F := F)) (value : string) (k : kind)
  : list (call (F := F)) :=
  [Hpp; GetCenterOfMassComputation value;
   AddCenterOfMass value (com_computation env value) k;
   HppTools; DeleteServantFromObject (com_computation env value)].

(** The calls of [_read], in order. *)
Definition _read_calls (env : Env (F := F)) (pathId : Z)
  : list (call (F := F)) :=
  [Hpp; GetPath pathId; SetPath (get_path env pathId); HppTools;
   DeleteServantFromObject (get_path env pathId)].

(** The number of remote calls made by a sequence of [budget] calls that
    starts with the call number [k] and stops at the first that raises. *)
Fixpoint attempted (env : Env (F := F)) (k budget : nat) : nat :=
  match budget with
  | O => O
  | S budget' =>
      match fault env k with
      | Some _ => 1
      | None => S (attempted env (S k) budget')
      end
  end.

Local Open Scope py_scope.

(** The watermark [publish] computes at line 258 from the [j]-th clock
    reading, when it started at the [r0]-th and the grid has [M] samples. *)
Definition watermark_at (env : Env (F := F)) (dt : F) (M r0 j : nat) : F :=
  pymin (of_int 150 / of_int 1000 * frequency dt
         + to_sec (now_at env j - now_at env r0) * frequency dt)
        (of_int (Z.of_nat M)).

(** The throttle is open once [publish], started at the clock reading [r0],
    has made [k] readings in its loop: the test [n < nstar] of line 248
    holds for every index of the grid at each of the readings the loop can
    still make. *)
Definition throttle_opens (env : Env (F := F)) (dt : F) (M r0 k : nat) : bool :=
  forallb (fun j =>
             forallb (fun i => of_int (Z.of_nat i) <? watermark_at env dt M r0 j)
                     (seq 0 M))
          (seq (r0 + 2 + k) (2 * M + 3)).

End MoreTraces.

(** A double that is neither an infinity nor a NaN. *)
Definition finite (x : float) : bool :=
  match Prim2SF x with
  | S754_zero _ | S754_finite _ _ _ => true
  | S754_infinity _ | S754_nan => false
  end.

(** ** The connection to the HPP server: _connect and _ros_shutdown *)

(** Handle on a server-side discretization object. *)
Definition discretization_handle := Z.

(** The calls [_connect] and [_ros_shutdown] make. *)
Inductive link_call : Type :=
| SuperConnect                                   (* HppClient._connect *)
| LoadServerPlugin                               (* loadServerPlugin(context, "agimus-hpp.so") *)
| NewClient                                      (* Client(context=...) *)
| GetDiscretization                              (* _agimus.server.getDiscretization() *)
| InitializeRosNode (d : discretization_handle)  (* d.initializeRosNode("hpp_discretization", False) *)
| ShutdownRos (d : discretization_handle)
| DeleteThis (d : discretization_handle).

(** What the server decides: whether the k-th call raises, and the object
    the k-th call answers when it is [getDiscretization]. *)
Record Server : Type := {
  refuses : nat -> option exn;
  serves : nat -> discretization_handle
}.

(** [self.discretization] and the calls made so far. *)
Record link : Type := {
  discretization : option discretization_handle;
  made : list link_call
}.

Definition Conn (A : Type) : Type := link -> outcome A * link.

Definition lret {A} (a : A) : Conn A := fun l => (Return a, l).
Definition lbind {A B} (c : Conn A) (k : A -> Conn B) : Conn B :=
  fun l => match c l with
           | (Return a, l') => k a l'
           | (Raise e, l') => (Raise e, l')
           end.
Definition ltry {A} (c : Conn A) (h : Conn A) : Conn A :=
  fun l => match c l with
           | (Return a, l') => (Return a, l')
           | (Raise _, l') => h l'
           end.

Section Link.

Variable server : Server.

(** A call: recorded, then it raises if the server says so. Its number is
    the count of the calls made before it. *)
Definition ask (c : link_call) : Conn nat :=
  fun l =>
    let k := List.length (made l) in
    let l' := {| discretization := discretization l;
                 made := made l ++ [c] |} in
    match refuses server k with
    | Some e => (Raise e, l')
    | None => (Return k, l')
    end.

Definition set_discretization (d : discretization_handle) : Conn unit :=
  fun l => (Return tt, {| discretization := Some d; made := made l |}).

(** The two lines of [_connect] that fetch and initialise a discretization. *)
Definition fetch_discretization : Conn unit :=
  lbind (ask GetDiscretization) (fun k =>
  lbind (set_discretization (serves server k)) (fun _ =>
  lbind (ask (InitializeRosNode (serves server k))) (fun _ =>
  lret tt))).

Definition _connect : Conn unit :=
  lbind (ask SuperConnect) (fun _ =>
  lbind (ask LoadServerPlugin) (fun _ =>
  lbind (ask NewClient) (fun _ =>
  fun l =>
    match discretization l with
    | None => fetch_discretization l
    | Some d =>
        ltry (lbind (ask (InitializeRosNode d)) (fun _ => lret tt))
             fetch_discretization l
    end))).

Definition _ros_shutdown : Conn unit :=
  fun l =>
    match discretization l with
    | Some d =>
        lbind (ask (ShutdownRos d)) (fun _ =>
        lbind (ask (DeleteThis d)) (fun _ =>
        lret tt)) l
    | None => (Return tt, l)
    end.

End Link.


(** The message [publishFirst] answers when it gives up. *)
Definition not_ready : string :=
  "First message not ready yet. Did you call read_path ?".

(** The line [publishFirst] logs when it starts waiting. *)
Definition keep_trying : string :=
  "First message not ready yet. Keep trying during one second.".

(** A test bench in exact arithmetic: the clock gains [tick] ns at each
    reading, the path server answers a length of 70 ms for every path. *)
Definition bench (tick : Z) (arrival : nat -> option (list Q))
  (fault : nat -> option exn) : Env (F := Q) :=
  {| interpreter := Python2;
     now_at := fun k => (Z.of_nat k * tick)%Z;
     arrival := arrival;
     fault := fault;
     path_length := fun _ => 7 # 100;
     get_path := fun pathId => pathId;
     com_computation := fun _ => 0%Z;
     add_center_of_mass := fun _ _ => true;
     add_operational_frame := fun _ _ => true |}.

(** Nothing goes wrong, nobody else reads; 2 ms between clock readings. *)
Definition calm : Env (F := Q) :=
  bench 2000000 (fun _ => None) (fun _ => None).

(** The second remote call raises. *)
Definition flaky : Env (F := Q) :=
  bench 2000000 (fun _ => None)
        (fun k => if (k =? 1)%nat then Some (RemoteError "pathLength") else None).

(** A read served on another thread stores a grid during the third sleep. *)
Definition late_reader : Env (F := Q) :=
  bench 2000000 (fun k => if (k =? 2)%nat then Some [1 # 2; 1] else None)
        (fun _ => None).

(** * Sample inputs *)

(** The compute calls take 20 ms each: 20 ms between clock readings. *)
Definition slow_compute : Env (F := Q) :=
  bench 20000000 (fun _ => None) (fun _ => None).

(** The same bench in binary64, the path server answering the double
    [duration]. *)
Definition bench64 (tick : Z) (duration : float) : Env (F := float) :=
  {| interpreter := Python2;
     now_at := fun k => (Z.of_nat k * tick)%Z;
     arrival := fun _ => None;
     fault := fun _ => None;
     path_length := fun _ => duration;
     get_path := fun pathId => pathId;
     com_computation := fun _ => 0%Z;
     add_center_of_mass := fun _ _ => true;
     add_operational_frame := fun _ _ => true |}.

(** A grid of three sample times. *)
Definition grid3 : list Q := [0; 1 # 100; 2 # 100].

(** A grid of twenty sample times, 10 ms apart. *)
Definition grid20 : list Q :=
  map (fun i => inject_Z (Z.of_nat i) / 100) (seq 0 20).

(** A control period of 10 ms: the double Python prints as [0.01]. Its
    inverse is the double [100.0]. *)
Definition period_10ms : float := 0x1.47ae147ae147bp-7%float.

(** A path of 70 ms: the double Python prints as [0.07]. *)
Definition duration_70ms : float := 0x1.1eb851eb851ecp-4%float.

(** A control period of 100 ms: the double Python prints as [0.1]. Its
    inverse is the double [10.0]. *)
Definition period_100ms : float := 0x1.999999999999ap-4%float.

(** Three sample times, as doubles. *)
Definition samples3 : list float := [0%float; period_10ms; duration_70ms].


(** The bench where the discretization answers [False] to every
    registration, without raising. *)
Definition refusing : Env (F := Q) :=
  {| interpreter := Python3;
     now_at := fun k => (Z.of_nat k * 2000000)%Z;
     arrival := fun _ => None;
     fault := fun _ => None;
     path_length := fun _ => 7 # 100;
     get_path := fun pathId => pathId;
     com_computation := fun _ => 5%Z;
     add_center_of_mass := fun _ _ => false;
     add_operational_frame := fun _ _ => false |}.

(** The third remote call raises. *)
Definition third_call_fails : Env (F := Q) :=
  bench 2000000 (fun _ => None)
        (fun k => if (k =? 2)%nat then Some (RemoteError "refused") else None).

(** A server that answers every call, the k-th [getDiscretization] with the
    object k. *)
Definition willing : Server :=
  {| refuses := fun _ => None; serves := fun k => Z.of_nat k |}.

(** A server whose fourth call raises. *)
Definition stale : Server :=
  {| refuses := fun k => if (k =? 3)%nat then Some (RemoteError "object deleted")
                         else None;
     serves := fun k => Z.of_nat k |}.

(** The connection before any [_connect], and one that holds object 7. *)
Definition unconnected : link := {| discretization := None; made := [] |}.
Definition connected : link := {| discretization := Some 7%Z; made := [] |}.

(** * Properties *)

Unset Implicit Arguments.

(** ** The time grid, whatever the arithmetic *)

Section GridShape.

Context {F : Type} `{PyFloat F}.
Variable dt : F.
Local Open Scope py_scope.

Lemma range_succ (z : Z) :
  (0 <= z)%Z -> range (z + 1) = (range z ++ [z])%list.
Proof.
  intros Hz. unfold range.
  replace (Z.to_nat (z + 1)) with (Z.to_nat z + 1)%nat by lia.
  rewrite seq_app, map_app. simpl.
  now rewrite Z2Nat.id.
Qed.

Lemma length_range (z : Z) : List.length (range z) = Z.to_nat z.
Proof. unfold range. now rewrite length_map, length_seq. Qed.

Lemma set_last_snoc (a : list F) (x y : F) :
  set_last (a ++ [x]) y = Return (a ++ [y])%list.
Proof.
  unfold set_last. destruct (a ++ [x])%list eqn:E.
  - now destruct a.
  - now rewrite <- E, removelast_last.
Qed.

(** The array [_read] stores: the multiples of the period below the
    duration, then the duration itself, all shifted by [start]. *)
Lemma grid_steps (start L : F) (N : Z) :
  (0 <= N)%Z ->
  grid dt start L N =
  Return (map (fun i => of_int (if L <? of_int 0 then -1 else 1) * of_int i
                        / frequency dt + start) (range N)
          ++ [L + start])%list.
Proof.
  intros HN. unfold grid.
  rewrite (range_succ _ HN), map_app. simpl map at 2.
  rewrite set_last_snoc, map_app, map_map. reflexivity.
Qed.

Lemma length_set_last (a ts : list F) (x : F) :
  set_last a x = Return ts -> List.length ts = List.length a.
Proof.
  destruct a as [ | a0 a ] using rev_ind; [ discriminate | ].
  rewrite set_last_snoc. intros [= <-]. now rewrite !length_app.
Qed.

Lemma grid_length (start L : F) (N : Z) (ts : list F) :
  grid dt start L N = Return ts -> List.length ts = Z.to_nat (N + 1).
Proof.
  unfold grid. intros E.
  destruct (set_last _ L) as [ts' | e] eqn:E'; [ | discriminate ].
  injection E as <-.
  apply length_set_last in E'.
  now rewrite length_map, E', length_map, length_range.
Qed.

(** [_read] never stores an empty grid. *)
Lemma sample_times_nonempty (start L : F) (ts : list F) :
  sample_times dt start L = Return ts -> ts <> [].
Proof.
  unfold sample_times, grid. intros E.
  destruct (ceil _) as [N | e]; [ | discriminate ].
  destruct (set_last _ L) as [ts' | e] eqn:E'; [ | discriminate ].
  injection E as <-.
  destruct (map _ (range (N + 1))) as [ | a l ] using rev_ind;
    [ discriminate | ].
  rewrite set_last_snoc in E'. injection E' as <-.
  rewrite map_app. now destruct (map _ l).
Qed.

End GridShape.

(** ** The time grid in exact arithmetic *)

Section ExactGrid.

Local Open Scope Q_scope.

Lemma Qltb_lt (x y : Q) : Qltb x y = true <-> x < y.
Proof.
  unfold Qltb. rewrite negb_true_iff. split.
  - intros E. apply Qnot_le_lt. intros Hle.
    apply Qle_bool_iff in Hle. congruence.
  - intros Hlt. destruct (Qle_bool y x) eqn:E; [ | reflexivity ].
    apply Qle_bool_iff in E. now apply Qlt_not_le in Hlt.
Qed.

Lemma Qltb_ge (x y : Q) : Qltb x y = false <-> y <= x.
Proof.
  unfold Qltb. rewrite negb_false_iff. apply Qle_bool_iff.
Qed.

(** Number of steps: at least one for a duration that is not null. *)
Lemma steps_positive (dt L : Q) :
  ~ L == 0 -> 0 < frequency dt ->
  (1 <= Qceiling (Qabs L * frequency dt))%Z.
Proof.
  intros HL Hf.
  assert (HA : 0 < Qabs L).
  { apply Qabs_case; intros Hs; destruct (Qeq_dec L 0); try contradiction; lra. }
  assert (HP : 0 < Qabs L * frequency dt) by now apply Qmult_lt_0_compat.
  pose proof (Qle_ceiling (Qabs L * frequency dt)) as Hc.
  assert (Hz : 0 < inject_Z (Qceiling (Qabs L * frequency dt)))
    by (eapply Qlt_le_trans; eassumption).
  rewrite <- (Zlt_Qlt 0) in Hz. lia.
Qed.

(** What [sample_times] returns, for a duration that is not null. *)
Lemma sample_times_exact (dt start L : Q) :
  ~ L == 0 -> 0 < frequency dt ->
  sample_times dt start L =
  Return (map (fun i => inject_Z (if Qltb L 0 then -1 else 1) * inject_Z i
                        / frequency dt + start)
              (range (Qceiling (Qabs L * frequency dt)))
          ++ [L + start])%list.
Proof.
  intros HL Hf. pose proof (steps_positive _ _ HL Hf) as HN.
  unfold sample_times. cbn [ceil exact fabs fmul].
  rewrite grid_steps by lia. reflexivity.
Qed.

Lemma nth_error_snoc_last {A} (l : list A) (x : A) :
  nth_error (l ++ [x]) (List.length (l ++ [x]) - 1) = Some x.
Proof.
  rewrite length_app. simpl.
  replace (List.length l + 1 - 1)%nat with (List.length l) by lia.
  now rewrite nth_error_app2, Nat.sub_diag by lia.
Qed.

(** A sequence of values of [h] at consecutive indices, then [z]. *)
Lemma chain_steps (R : Q -> Q -> bool) (h : Z -> Q) (z : Q) (n a : nat) :
  (forall i : nat, R (h (Z.of_nat i)) (h (Z.of_nat (S i))) = true) ->
  (forall m : nat, n = S m -> R (h (Z.of_nat (a + m))) z = true) ->
  chain R (map h (map Z.of_nat (seq a n)) ++ [z])%list = true.
Proof.
  intros Hstep. revert a. induction n as [ | n IH ]; intros a Hlast.
  - reflexivity.
  - destruct n as [ | n ].
    + simpl. rewrite andb_true_r.
      specialize (Hlast 0%nat eq_refl). now rewrite Nat.add_0_r in Hlast.
    + change (chain R (h (Z.of_nat a) :: h (Z.of_nat (S a))
                       :: map h (map Z.of_nat (seq (S (S a)) n)) ++ [z])%list
              = true).
      cbn [chain]. rewrite Hstep. cbn [andb].
      apply (IH (S a)). intros m [= ->].
      specialize (Hlast (S m) eq_refl).
      now replace (S a + m)%nat with (a + S m)%nat by lia.
Qed.

(** In exact arithmetic, for every start, every duration L that is not
    null and every positive frequency, the grid has
    ceil(|L| * frequency) + 1 sample times, the first equal to start and the
    last equal to start + L. *)
Lemma grid_length_and_endpoints_exact (dt start L : Q) :
  ~ L == 0 -> 0 < frequency dt ->
  exists ts t0 tN,
    sample_times dt start L = Return ts
    /\ List.length ts = (Z.to_nat (Qceiling (Qabs L * frequency dt)) + 1)%nat
    /\ nth_error ts 0 = Some t0 /\ t0 == start
    /\ nth_error ts (List.length ts - 1) = Some tN /\ tN == start + L.
Proof.
  intros HL Hf. pose proof (steps_positive _ _ HL Hf) as HN.
  rewrite (sample_times_exact _ start _ HL Hf).
  set (N := Qceiling (Qabs L * frequency dt)) in *.
  set (h := fun i : Z => _).
  exists (map h (range N) ++ [L + start])%list, (h 0%Z), (L + start).
  split; [ reflexivity | ].
  split; [ now rewrite length_app, length_map, length_range | ].
  split.
  { unfold range. destruct (Z.to_nat N) eqn:E; [ lia | reflexivity ]. }
  split.
  { unfold h. cbn [of_int fmul fdiv fadd exact]. unfold Qdiv.
    change (inject_Z 0) with 0. ring. }
  split; [ apply nth_error_snoc_last | ring ].
Qed.

(** C4 as amended. In exact arithmetic, for every start, every duration L
    that is not null and every positive frequency, the grid is strictly
    monotonic in the direction of travel, the forced last element included:
    with N = ceil(|L| * frequency) steps, start + L lies strictly beyond
    start + sign(L) * (N - 1) / frequency. *)
Theorem grid_strictly_monotonic_exact (dt start L : Q) :
  ~ L == 0 -> 0 < frequency dt ->
  exists ts,
    sample_times dt start L = Return ts /\ strictly_monotonic L ts = true.
Proof.
  intros HL Hf. pose proof (steps_positive _ _ HL Hf) as HN.
  rewrite (sample_times_exact _ start _ HL Hf).
  eexists; split; [ reflexivity | ].
  pose proof (Qceiling_lt (Qabs L * frequency dt)) as Hc.
  set (N := Qceiling (Qabs L * frequency dt)) in *.
  set (f := frequency dt) in *.
  assert (Hi : 0 < / f) by now apply Qinv_lt_0_compat.
  unfold strictly_monotonic, range. cbn [flt of_int exact].
  change (inject_Z 0) with 0.
  destruct (Qltb L 0) eqn:Hs.
  - (* descending *)
    apply Qltb_lt in Hs.
    apply chain_steps.
    + intros i. apply Qltb_lt. rewrite Nat2Z.inj_succ. unfold Z.succ.
      rewrite inject_Z_plus. unfold Qdiv.
      change (inject_Z (-1)) with (-1). change (inject_Z 1) with 1. lra.
    + intros m Hm. apply Qltb_lt. simpl Nat.add.
      assert (Em : Z.of_nat m = (N - 1)%Z) by lia. rewrite Em.
      rewrite Qabs_neg in Hc by lra.
      change (inject_Z (-1)) with (-1).
      assert (Hd : inject_Z (N - 1) * / f < - L).
      { apply Qmult_lt_r with (z := f); [ assumption | ].
        rewrite <- Qmult_assoc, (Qmult_comm (/ f)), Qmult_inv_r by lra.
        lra. }
      unfold Qdiv. lra.
  - (* ascending *)
    apply Qltb_ge in Hs.
    apply chain_steps.
    + intros i. apply Qltb_lt. rewrite Nat2Z.inj_succ. unfold Z.succ.
      rewrite inject_Z_plus. unfold Qdiv.
      change (inject_Z 1) with 1. lra.
    + intros m Hm. apply Qltb_lt. simpl Nat.add.
      assert (Em : Z.of_nat m = (N - 1)%Z) by lia. rewrite Em.
      rewrite Qabs_pos in Hc by lra.
      change (inject_Z 1) with 1.
      assert (Hd : inject_Z (N - 1) * / f < L).
      { apply Qmult_lt_r with (z := f); [ assumption | ].
        rewrite <- Qmult_assoc, (Qmult_comm (/ f)), Qmult_inv_r by lra.
        lra. }
      unfold Qdiv. lra.
Qed.

Example grid_length_and_endpoints_exact_at_100Hz :
  exists ts t0 tN,
    sample_times (1 # 100) (1 # 2) (- (7 # 100)) = Return ts
    /\ List.length ts
       = (Z.to_nat (Qceiling (Qabs (- (7 # 100)) * frequency (1 # 100))) + 1)%nat
    /\ nth_error ts 0 = Some t0 /\ t0 == 1 # 2
    /\ nth_error ts (List.length ts - 1) = Some tN
    /\ tN == (1 # 2) + - (7 # 100).
Proof.
  apply (grid_length_and_endpoints_exact (1 # 100) (1 # 2) (- (7 # 100))).
  - vm_compute. discriminate.
  - vm_compute. reflexivity.
Qed.

Lemma grid_strictly_monotonic_exact_witness :
  exists ts,
    sample_times (1 # 100) 0 (7 # 100) = Return ts
    /\ strictly_monotonic (7 # 100) ts = true.
Proof.
  apply (grid_strictly_monotonic_exact (1 # 100) 0 (7 # 100)).
  - vm_compute. discriminate.
  - vm_compute. reflexivity.
Defined.

End ExactGrid.

(** ** The time grid in binary64 *)

(** C4, counterexample. With a period of 10 ms (frequency 100.0) and a path
    of 70 ms read from 0, [abs(L) * frequency] is the double
    7.000000000000001, so N = 8 and the grid has 9 sample times; the one at
    index 7 is the double 7 / 100.0, which is 0.07, and the forced last one
    is 0.07 too: the grid is not strictly ascending. *)
Lemma grid_repeats_endpoint_binary64 :
  feq duration_70ms (of_int 0) = false
  /\ flt (of_int 0) (frequency period_10ms) = true
  /\ ceil (fmul (fabs duration_70ms) (frequency period_10ms)) = Return 8%Z
  /\ (exists ts,
        sample_times period_10ms (of_int 0) duration_70ms = Return ts
        /\ List.length ts = 9%nat
        /\ nth_error ts 7 = Some duration_70ms
        /\ nth_error ts 8 = Some duration_70ms)
  /\ ~ (exists ts,
          sample_times period_10ms (of_int 0) duration_70ms = Return ts
          /\ strictly_monotonic duration_70ms ts = true).
Proof.
  split; [ vm_compute; reflexivity | ].
  split; [ vm_compute; reflexivity | ].
  split; [ vm_compute; reflexivity | ].
  split.
  - eexists. split; [ vm_compute; reflexivity | ].
    repeat split; vm_compute; reflexivity.
  - intros [ts [E Hm]]. vm_compute in E. injection E as <-.
    vm_compute in Hm. discriminate Hm.
Qed.

(** The two grids of the specification's examples, at 10 Hz. *)
Example grid_0_to_10_binary64 :
  exists ts,
    sample_times period_100ms 0%float 10%float = Return ts
    /\ List.length ts = 101%nat
    /\ nth_error ts 0 = Some 0%float
    /\ nth_error ts 100 = Some 10%float
    /\ strictly_monotonic 10%float ts = true.
Proof.
  eexists. split; [ vm_compute; reflexivity | ].
  repeat split; vm_compute; reflexivity.
Qed.

Example grid_0_to_minus_5_binary64 :
  exists ts,
    sample_times period_100ms 0%float (-5)%float = Return ts
    /\ List.length ts = 51%nat
    /\ nth_error ts 0 = Some 0%float
    /\ nth_error ts 50 = Some (-5)%float
    /\ strictly_monotonic (-5)%float ts = true.
Proof.
  eexists. split; [ vm_compute; reflexivity | ].
  repeat split; vm_compute; reflexivity.
Qed.

(** In binary64, [read] of a path of 70 ms at 100 Hz stores nine sample
    times, and the [publish] that follows calls [compute] nine times, the
    last two on the same time. *)
Example read_then_publish_binary64 :
  match read (bench64 2000000 duration_70ms) period_10ms 3 idle with
  | (Return _, w) =>
      match publish (bench64 2000000 duration_70ms) period_10ms 20 w with
      | Some (Return _, w') =>
          List.length (computed (trace w')) = 9%nat
          /\ nth_error (computed (trace w')) 7 = Some duration_70ms
          /\ nth_error (computed (trace w')) 8 = Some duration_70ms
          /\ times w' = None
      | _ => False
      end
  | (Raise _, _) => False
  end.
Proof. vm_compute. repeat split; reflexivity. Qed.

(** ** The handlers, whatever the arithmetic *)

Section Handlers.

Context {F : Type} `{PyFloat F}.
Variable env : Env (F := F).
Variable dt : F.

Ltac split_on_world :=
  match goal with
  | |- context [fault env ?k] => destruct (fault env k) eqn:?
  | |- context [ceil ?x] => destruct (ceil x) eqn:?
  | |- context [grid ?a ?b ?c ?d] => destruct (grid a b c d) eqn:?
  end.

Ltac run :=
  unfold read, readSub, _read, remote_val, loginfo, logwarn, logerr, emit,
    remote, lift, set_times, bind, ret, raise in *;
  cbn [fst snd times trace ncalls nreads nsleeps] in *.

Ltac run_cfg :=
  unfold setJointNames, addOperationalFrame, resetTopics, try_except,
    remote_val, loginfo, logwarn, logerr, emit, remote, lift, set_times,
    bind, ret, raise in *;
  cbn [fst snd times trace ncalls nreads nsleeps] in *.

(** *** getQueueSize *)

(** C6. [getQueueSize] answers the number of samples of the grid when there
    is one. When there is none (before any read, or once [publish] has
    cleared it), [len(None)] raises [TypeError] and nothing catches it: the
    handler has no not-ready answer. *)
Theorem getQueueSize_len_or_TypeError (w : world (F := F)) :
  getQueueSize w =
  match times w with
  | Some g => (Return (List.length g), w)
  | None => (Raise TypeError, w)
  end.
Proof.
  unfold getQueueSize, len_times, bind, get_times. now destruct (times w).
Qed.

(** *** read, readSub *)

(** [_read] stores the grid last. *)
Lemma read_stores_last (w : world (F := F)) :
  (forall data,
     match read env dt data w with
     | (Raise _, w') => times w' = times w
     | (Return _, w') =>
         exists ts, sample_times dt (of_int 0) (path_length env data) = Return ts
                    /\ times w' = Some ts
     end)
  /\ (forall id start length,
        match readSub env dt id start length w with
        | (Raise _, w') => times w' = times w
        | (Return _, w') =>
            exists ts, sample_times dt start length = Return ts
                       /\ times w' = Some ts
        end).
Proof.
  split; intros; unfold sample_times; run;
    repeat (split_on_world; cbn [fst snd times trace ncalls nreads nsleeps]);
    try reflexivity; eexists; split; reflexivity.
Qed.

(** *** publishFirst *)

Lemma run_bind {A B} (c : M A) (k : A -> M B) (w w1 : world (F := F)) (a : A) :
  c w = (Return a, w1) -> bind c k w = k a w1.
Proof. unfold bind. now intros ->. Qed.

Lemma wait_for_times_timeout (count : nat) (w : world (F := F)) :
  times w = None ->
  (forall j, (j < count)%nat -> arrival env (nsleeps w + j) = None) ->
  wait_for_times env count w = (Return tt, slept count w).
Proof.
  revert w. induction count as [ | count IH ]; intros w Hw Hq.
  - unfold slept. cbn. rewrite app_nil_r, Nat.add_0_r. now destruct w.
  - cbn [wait_for_times]. unfold bind at 1. unfold get_times at 1. rewrite Hw.
    unfold bind, rate_sleep.
    pose proof (Hq 0%nat ltac:(lia)) as H0. rewrite Nat.add_0_r in H0.
    rewrite H0.
    rewrite IH.
    + unfold slept. cbn [times trace ncalls nreads nsleeps].
      rewrite <- app_assoc. cbn [app repeat]. 
      now rewrite Nat.add_succ_r.
    + exact Hw.
    + cbn [nsleeps]. intros j Hj. specialize (Hq (S j)). 
      rewrite Nat.add_succ_r in Hq. apply Hq. lia.
Qed.

Lemma wait_for_times_ready (count : nat) (w : world (F := F)) (g : list F) :
  times w = Some g -> wait_for_times env count w = (Return tt, w).
Proof.
  intros Hw. destruct count; [ reflexivity | ].
  cbn [wait_for_times]. unfold bind, get_times. now rewrite Hw.
Qed.

Lemma wait_for_times_arrival (count k : nat) (w : world (F := F)) (g : list F) :
  times w = None ->
  (k < count)%nat ->
  (forall j, (j < k)%nat -> arrival env (nsleeps w + j) = None) ->
  arrival env (nsleeps w + k) = Some g ->
  wait_for_times env count w =
  (Return tt,
   {| times := Some g;
      trace := trace w ++ repeat (Sleep 1000) (S k);
      ncalls := ncalls w; nreads := nreads w;
      nsleeps := nsleeps w + S k |}).
Proof.
  revert count w. induction k as [ | k IH ]; intros count w Hw Hk Hq Hg.
  - destruct count as [ | count ]; [ lia | ].
    cbn [wait_for_times]. unfold bind at 1. unfold get_times at 1. rewrite Hw.
    unfold bind, rate_sleep. rewrite Nat.add_0_r in Hg. rewrite Hg.
    erewrite wait_for_times_ready by reflexivity.
    now rewrite Nat.add_1_r.
  - destruct count as [ | count ]; [ lia | ].
    cbn [wait_for_times]. unfold bind at 1. unfold get_times at 1. rewrite Hw.
    unfold bind, rate_sleep.
    pose proof (Hq 0%nat ltac:(lia)) as H0. rewrite Nat.add_0_r in H0.
    rewrite H0.
    rewrite (IH count).
    + cbn [times trace ncalls nreads nsleeps].
      rewrite <- app_assoc. cbn [app repeat].
      now rewrite (Nat.add_succ_r (nsleeps w)).
    + exact Hw.
    + lia.
    + cbn [nsleeps]. intros j Hj. specialize (Hq (S j)).
      rewrite Nat.add_succ_r in Hq. apply Hq. lia.
    + cbn [nsleeps]. now rewrite Nat.add_succ_r in Hg.
Qed.


Lemma publishFirst_ready (w : world (F := F)) (g : list F) (t0 : F) :
  times w = Some g -> nth_error g 0 = Some t0 ->
  fault env (ncalls w) = None ->
  publishFirst env w =
  (Return (true, ""%string),
   {| times := Some g;
      trace := trace w ++ [Call (Compute t0)];
      ncalls := S (ncalls w); nreads := nreads w;
      nsleeps := nsleeps w |}).
Proof.
  intros Hw Ht Hf. unfold publishFirst.
  unfold bind at 1. unfold get_times at 1. rewrite Hw.
  unfold bind at 1. unfold ret at 1.
  erewrite run_bind by (apply wait_for_times_ready with (g := g); exact Hw).
  unfold times_at, remote, bind, get_times, ret.
  repeat progress (cbn beta iota; rewrite ?Hw, ?Ht, ?Hf). reflexivity.
Qed.

(** C5. [publishFirst] with no grid, and none stored while it waits, sleeps
    1000 times at 1000 Hz and then answers [False] with the not-ready
    message. With a grid, it calls [compute] once, on the first sample time,
    and answers [True]; so it does when the grid is stored during one of the
    1000 sleeps. *)
Theorem publishFirst_waits_for_a_grid (w : world (F := F)) :
  (times w = None ->
   (forall j, (j < 1000)%nat -> arrival env (nsleeps w + j) = None) ->
   publishFirst env w =
   (Return (false, not_ready),
    {| times := None;
       trace := trace w
                ++ [Log Warn keep_trying []]
                ++ repeat (Sleep 1000) 1000
                ++ [Log Err "Could not print first message" []];
       ncalls := ncalls w; nreads := nreads w;
       nsleeps := nsleeps w + 1000 |}))
  /\ (forall g t0,
        times w = Some g -> nth_error g 0 = Some t0 ->
        fault env (ncalls w) = None ->
        publishFirst env w =
        (Return (true, ""%string),
         {| times := Some g;
            trace := trace w ++ [Call (Compute t0)];
            ncalls := S (ncalls w); nreads := nreads w;
            nsleeps := nsleeps w |}))
  /\ (forall k g t0,
        times w = None -> (k < 1000)%nat ->
        (forall j, (j < k)%nat -> arrival env (nsleeps w + j) = None) ->
        arrival env (nsleeps w + k) = Some g ->
        nth_error g 0 = Some t0 ->
        fault env (ncalls w) = None ->
        publishFirst env w =
        (Return (true, ""%string),
         {| times := Some g;
            trace := trace w
                     ++ [Log Warn keep_trying []]
                     ++ repeat (Sleep 1000) (S k)
                     ++ [Call (Compute t0)];
            ncalls := S (ncalls w); nreads := nreads w;
            nsleeps := nsleeps w + S k |})).
Proof.
  repeat split.
  - intros Hw Hq. unfold publishFirst.
    unfold bind at 1. unfold get_times at 1. rewrite Hw.
    unfold bind at 1. unfold logwarn, emit.
    erewrite run_bind
      by (apply wait_for_times_timeout; [ exact Hw | exact Hq ]).
    unfold slept, bind, get_times, logerr, emit, ret.
    cbn [times trace ncalls nreads nsleeps]. rewrite Hw.
    cbn [times trace ncalls nreads nsleeps].
    now rewrite <- !app_assoc.
  - intros g t0 Hw Ht Hf. now apply publishFirst_ready.
  - intros k g t0 Hw Hk Hq Hg Ht Hf. unfold publishFirst.
    unfold bind at 1. unfold get_times at 1. rewrite Hw.
    unfold bind at 1. unfold logwarn, emit.
    erewrite run_bind
      by (apply wait_for_times_arrival with (k := k) (g := g);
          [ exact Hw | exact Hk | exact Hq | exact Hg ]).
    unfold times_at, remote, bind, get_times, ret.
    repeat progress (cbn [times trace ncalls nreads nsleeps]; rewrite ?Ht, ?Hf).
    now rewrite <- !app_assoc.
Qed.


(** *** Remote calls that raise *)

Ltac finish_run :=
  cbn [fst snd times trace ncalls nreads nsleeps];
  do 3 eexists; (split; [ reflexivity | ]);
  cbn [fst snd times trace ncalls nreads nsleeps];
  rewrite <- ?app_assoc; (split; [ reflexivity | ]);
  (split; [ reflexivity | ]).

Lemma setJointNames_catches (names : list string) (w : world (F := F)) :
  exists b w' tr,
    setJointNames env names w = (Return b, w')
    /\ trace w' = (trace w ++ tr)%list
    /\ times w' = times w
    /\ (raised_between env (ncalls w) (ncalls w') ->
        b = false /\ logged Err tr = true).
Proof.
  run_cfg.
  destruct (fault env (ncalls w)) as [ e0 | ] eqn:E0;
    cbn [fst snd times trace ncalls nreads nsleeps];
    [ | destruct (fault env (S (ncalls w))) as [ e1 | ] eqn:E1 ];
    finish_run.
  - intros _. split; reflexivity.
  - intros _. split; reflexivity.
  - intros (j & e & Hj & Hf).
    assert (Hc : j = ncalls w \/ j = S (ncalls w)) by lia.
    destruct Hc as [ -> | -> ]; congruence.
Qed.

Lemma addOperationalFrame_catches (value : string) (w : world (F := F)) :
  exists b w' tr,
    addOperationalFrame env value w = (Return b, w')
    /\ trace w' = (trace w ++ tr)%list
    /\ times w' = times w
    /\ (raised_between env (ncalls w) (ncalls w') ->
        b = false /\ logged Err tr = true).
Proof.
  run_cfg.
  destruct (fault env (ncalls w)) as [ e0 | ] eqn:E0;
    cbn [fst snd times trace ncalls nreads nsleeps];
    [ | destruct (add_operational_frame env value Position) ];
    finish_run.
  - intros _. split; reflexivity.
  - intros (j & e & Hj & Hf).
    assert (j = ncalls w) as -> by lia. congruence.
  - intros _. split; reflexivity.
Qed.


Lemma local_propagates {A} (c : M A) : local c -> propagates env c.
Proof.
  intros Hc w r w' E. apply Hc in E. split; [ lia | intros; lia ].
Qed.

Lemma propagates_bind {A B} (c : M A) (k : A -> M B) :
  propagates env c -> (forall a, propagates env (k a)) -> propagates env (bind c k).
Proof.
  intros Hc Hk w r w' E. unfold bind in E.
  destruct (c w) as [ [ a | e1 ] w1 ] eqn:E1.
  - destruct (Hc _ _ _ E1) as [Hle1 H1]. destruct (Hk a _ _ _ E) as [Hle2 H2].
    split; [ lia | ]. intros j e Hj Hf.
    destruct (Nat.lt_ge_cases j (ncalls w1)) as [Hlt | Hge].
    + specialize (H1 j e ltac:(lia) Hf). discriminate.
    + apply (H2 j e); [ lia | assumption ].
  - injection E as <- <-. destruct (Hc _ _ _ E1) as [Hle1 H1].
    split; [ assumption | ]. intros j e Hj Hf.
    specialize (H1 j e Hj Hf). now injection H1 as ->.
Qed.

Lemma propagates_remote (c : call) : propagates env (remote env c).
Proof.
  intros w r w'. unfold remote.
  destruct (fault env (ncalls w)) eqn:Ef; intros [= <- <-];
    cbn [ncalls]; (split; [ lia | ]); intros j e' Hj Hf;
    assert (j = ncalls w) as -> by lia; congruence.
Qed.

Lemma local_ret {A} (a : A) : local (F := F) (ret a).
Proof. now intros w r w' [= <- <-]. Qed.
Lemma local_raise {A} (e : exn) : local (F := F) (raise (A := A) e).
Proof. now intros w r w' [= <- <-]. Qed.
Lemma local_lift {A} (o : outcome A) : local (F := F) (lift o).
Proof. now intros w r w' [= <- <-]. Qed.
Lemma local_emit (e : event) : local (F := F) (emit e).
Proof. now intros w r w' [= <- <-]. Qed.
Lemma local_time_now : local (time_now env).
Proof. now intros w r w' [= <- <-]. Qed.
Lemma local_rate_sleep (hz : Z) : local (rate_sleep env hz).
Proof. now intros w r w' [= <- <-]. Qed.
Lemma local_get_times : local (F := F) get_times.
Proof. now intros w r w' [= <- <-]. Qed.
Lemma local_set_times (g : option (list F)) : local (F := F) (set_times g).
Proof. now intros w r w' [= <- <-]. Qed.

Create HintDb propagation.
#[local] Hint Resolve propagates_remote local_ret local_raise local_lift local_emit
  local_time_now local_rate_sleep local_get_times local_set_times
  local_propagates : propagation.

Ltac propagation :=
  repeat first
    [ apply propagates_bind; [ | intro ]
    | match goal with
      | |- propagates env (match ?x with _ => _ end) => destruct x
      | |- propagates env (if ?x then _ else _) => destruct x
      end
    | solve [ auto with propagation ] ].

Lemma propagates_read (data : Z) : propagates env (read env dt data).
Proof.
  unfold read, _read, remote_val, loginfo. propagation.
Qed.

Lemma propagates_readSub (id : Z) (start length : F) :
  propagates env (readSub env dt id start length).
Proof.
  unfold readSub, _read, remote_val, loginfo. propagation.
Qed.

Lemma propagates_publish_turn (advance : F) (start : Z) (s : locals) :
  propagates env (publish_turn env dt advance start s).
Proof.
  unfold publish_turn, times_at, len_times. propagation.
Qed.

Lemma propagates_len_times : propagates env len_times.
Proof. unfold len_times. propagation. Qed.

Lemma propagates_publish_enter : propagates env (publish_enter env dt).
Proof. unfold publish_enter, len_times, loginfo. propagation. Qed.

Lemma propagates_publish_leave (s : locals) : propagates env (publish_leave dt s).
Proof. unfold publish_leave, loginfo, logwarn. propagation. Qed.

Lemma publish_loop_propagates (fuel : nat) (advance : F) (start : Z) :
  forall (s : locals) (w : world) r w',
    publish_loop env dt fuel advance start s w = Some (r, w') ->
    (ncalls w <= ncalls w')%nat
    /\ forall j e, (ncalls w <= j < ncalls w')%nat ->
                   fault env j = Some e -> r = Raise e.
Proof.
  induction fuel as [ | fuel IH ]; intros s w r w' E; [ discriminate | ].
  cbn [publish_loop] in E.
  destruct (len_times w) as [ [ len | e0 ] w0 ] eqn:E0.
  - pose proof (propagates_len_times _ _ _ E0) as [Hle0 H0].
    destruct (n s <? len)%nat.
    + destruct (publish_turn env dt advance start s w0) as [ [ s1 | e1 ] w1 ] eqn:E1.
      * pose proof (propagates_publish_turn advance start s _ _ _ E1) as [Hle1 H1].
        destruct (IH _ _ _ _ E) as [Hle2 H2].
        split; [ lia | ]. intros j e Hj Hf.
        destruct (Nat.lt_ge_cases j (ncalls w0)) as [Hlt | Hge];
          [ specialize (H0 j e ltac:(lia) Hf); discriminate | ].
        destruct (Nat.lt_ge_cases j (ncalls w1)) as [Hlt1 | Hge1];
          [ specialize (H1 j e ltac:(lia) Hf); discriminate | ].
        apply (H2 j e); [ lia | assumption ].
      * injection E as <- <-.
        pose proof (propagates_publish_turn advance start s _ _ _ E1) as [Hle1 H1].
        split; [ lia | ]. intros j e Hj Hf.
        destruct (Nat.lt_ge_cases j (ncalls w0)) as [Hlt | Hge];
          [ specialize (H0 j e ltac:(lia) Hf); discriminate | ].
        apply (H1 j e); [ lia | assumption ].
    + injection E as <- <-. split; [ lia | ]. intros j e Hj Hf.
      specialize (H0 j e Hj Hf). discriminate.
  - injection E as <- <-.
    destruct (propagates_len_times _ _ _ E0) as [Hle0 H0].
    split; [ lia | ]. intros j e Hj Hf.
    specialize (H0 j e Hj Hf). now injection H0 as ->.
Qed.


Lemma publish_propagates (fuel : nat) (w : world) r w' :
  publish env dt fuel w = Some (r, w') ->
  forall j e, (ncalls w <= j < ncalls w')%nat ->
              fault env j = Some e -> r = Raise e.
Proof.
  unfold publish. intros E j e Hj Hf.
  destruct (publish_enter env dt w) as [ [ [ [advance start] s ] | e0 ] w0 ] eqn:E0.
  - destruct (propagates_publish_enter _ _ _ E0) as [Hle0 H0].
    destruct (publish_loop env dt fuel advance start s w0)
      as [ [ [ s1 | e1 ] w1 ] | ] eqn:E1; [ | | discriminate ].
    + destruct (publish_loop_propagates _ _ _ _ _ _ _ E1) as [Hle1 H1].
      injection E as E.
      destruct (propagates_publish_leave _ _ _ _ E) as [Hle2 H2].
      destruct (Nat.lt_ge_cases j (ncalls w0)) as [Hlt | Hge];
        [ specialize (H0 j e ltac:(lia) Hf); discriminate | ].
      destruct (Nat.lt_ge_cases j (ncalls w1)) as [Hlt1 | Hge1];
        [ specialize (H1 j e ltac:(lia) Hf); discriminate | ].
      apply (H2 j e); [ lia | assumption ].
    + destruct (publish_loop_propagates _ _ _ _ _ _ _ E1) as [Hle1 H1].
      injection E as <- <-.
      destruct (Nat.lt_ge_cases j (ncalls w0)) as [Hlt | Hge];
        [ specialize (H0 j e ltac:(lia) Hf); discriminate | ].
      specialize (H1 j e ltac:(lia) Hf). now injection H1 as ->.
  - injection E as <- <-.
    destruct (propagates_publish_enter _ _ _ E0) as [Hle0 H0].
    specialize (H0 j e Hj Hf). now injection H0 as ->.
Qed.


(** The loop of [publish] only visits states of [in_publish]. *)
Lemma publish_loop_in_publish (w0 : world (F := F)) (advance : F) (start : Z)
  (fuel : nat) :
  forall s w s' w',
    in_publish env dt w0 advance start s w ->
    publish_loop env dt fuel advance start s w = Some (Return s', w') ->
    in_publish env dt w0 advance start s' w'.
Proof.
  induction fuel as [ | fuel IH ]; intros s w s' w' Hin E; [ discriminate | ].
  cbn [publish_loop] in E. unfold len_times, get_times, bind in E.
  destruct (times w) as [ g | ] eqn:Hw; [ | discriminate ].
  unfold ret in E.
  destruct (n s <? List.length g)%nat eqn:En.
  - apply Nat.ltb_lt in En.
    destruct (publish_turn env dt advance start s w) as [ [ s1 | e ] w1 ] eqn:E1;
      [ | discriminate ].
    apply (IH s1 w1); [ | exact E ].
    now apply in_publish_turn with (s := s) (w := w) (g := g).
  - now injection E as <- <-.
Qed.

(** C9. When a remote call made by a read raises ([hpp()], [pathLength],
    [getPath], [setPath], [hpptools()] or the release of the path handle),
    the read ends with an exception and [self.times] is what it was: the new
    grid is stored by the last statement of [_read]. A read that returns has
    stored the grid of [sample_times]. *)
Theorem failed_read_keeps_the_grid (w : world (F := F)) :
  (forall data r w',
     read env dt data w = (r, w') ->
     raised_between env (ncalls w) (ncalls w') ->
     (exists e, r = Raise e) /\ times w' = times w)
  /\ (forall id start length r w',
        readSub env dt id start length w = (r, w') ->
        raised_between env (ncalls w) (ncalls w') ->
        (exists e, r = Raise e) /\ times w' = times w)
  /\ (forall data,
        match read env dt data w with
        | (Raise _, w') => times w' = times w
        | (Return _, w') =>
            exists ts,
              sample_times dt (of_int 0) (path_length env data) = Return ts
              /\ times w' = Some ts
        end)
  /\ (forall id start length,
        match readSub env dt id start length w with
        | (Raise _, w') => times w' = times w
        | (Return _, w') =>
            exists ts, sample_times dt start length = Return ts
                       /\ times w' = Some ts
        end).
Proof.
  destruct (read_stores_last w) as [Hread HreadSub].
  split; [ | split; [ | split; assumption ] ].
  - intros data r w' E (j & e & Hj & Hf).
    pose proof (proj2 (propagates_read data _ _ _ E) j e Hj Hf) as ->.
    split; [ now exists e | ].
    specialize (Hread data). now rewrite E in Hread.
  - intros id start length r w' E (j & e & Hj & Hf).
    pose proof (proj2 (propagates_readSub id start length _ _ _ E) j e Hj Hf)
      as ->.
    split; [ now exists e | ].
    specialize (HreadSub id start length). now rewrite E in HreadSub.
Qed.

(** C7 as amended. [setJointNames] and [addOperationalFrame] always return:
    when a remote call they make raises, they answer [False] and log an
    error. [read], [readSub] and [publish] have no handler: a remote call
    that raises ends them with its exception. *)
Theorem remote_failures_by_handler (w : world (F := F)) :
  (forall names,
     exists b w' tr,
       setJointNames env names w = (Return b, w')
       /\ trace w' = (trace w ++ tr)%list
       /\ times w' = times w
       /\ (raised_between env (ncalls w) (ncalls w') ->
           b = false /\ logged Err tr = true))
  /\ (forall value,
        exists b w' tr,
          addOperationalFrame env value w = (Return b, w')
          /\ trace w' = (trace w ++ tr)%list
          /\ times w' = times w
          /\ (raised_between env (ncalls w) (ncalls w') ->
              b = false /\ logged Err tr = true))
  /\ (forall data r w' j e,
        read env dt data w = (r, w') ->
        (ncalls w <= j < ncalls w')%nat -> fault env j = Some e ->
        r = Raise e)
  /\ (forall id start length r w' j e,
        readSub env dt id start length w = (r, w') ->
        (ncalls w <= j < ncalls w')%nat -> fault env j = Some e ->
        r = Raise e)
  /\ (forall fuel r w' j e,
        publish env dt fuel w = Some (r, w') ->
        (ncalls w <= j < ncalls w')%nat -> fault env j = Some e ->
        r = Raise e).
Proof.
  split; [ intros names; exact (setJointNames_catches names w) | ].
  split; [ intros value; exact (addOperationalFrame_catches value w) | ].
  split; [ | split ].
  - intros data r w' j e E. exact (proj2 (propagates_read data _ _ _ E) j e).
  - intros id start length r w' j e E.
    exact (proj2 (propagates_readSub id start length _ _ _ E) j e).
  - intros fuel r w' j e E. exact (publish_propagates fuel w r w' E j e).
Qed.

(** *** The centre-of-mass services

    Left out of the statement above: [addCenterOfMass],
    [addCenterOfMassVelocity] and [addOperationalFrameVelocity] format
    [str(e)] after the [except] clause has ended. *)

(** A remote call raises at once: Python 2 answers [False], Python 3 has
    unbound [e] and raises. *)
Remark add_com_after_a_failure (k : kind) (done failed value : string)
  (w : world (F := F)) (e : exn) :
  fault env (ncalls w) = Some e ->
  fst (add_com env k done failed value w) =
  match interpreter env with
  | Python2 => Return false
  | Python3 => Raise UnboundLocalError
  end.
Proof.
  intros Hf.
  unfold add_com, try_except, str_of, after_except, remote_val, loginfo,
    logerr, emit, remote, ret, raise, bind.
  rewrite Hf. now destruct (interpreter env).
Qed.

(** No call raises and the discretization answers [False]: [e] was never
    bound, whatever the interpreter. *)
Remark add_com_after_a_refusal (k : kind) (done failed value : string)
  (w : world (F := F)) :
  (forall i, (i < 5)%nat -> fault env (ncalls w + i) = None) ->
  add_center_of_mass env value k = false ->
  fst (add_com env k done failed value w) = Raise UnboundLocalError.
Proof.
  intros Hf Hr.
  pose proof (Hf 0%nat ltac:(lia)) as H0. rewrite Nat.add_0_r in H0.
  pose proof (Hf 1%nat ltac:(lia)) as H1. rewrite Nat.add_1_r in H1.
  pose proof (Hf 2%nat ltac:(lia)) as H2.
  pose proof (Hf 3%nat ltac:(lia)) as H3.
  pose proof (Hf 4%nat ltac:(lia)) as H4.
  replace (ncalls w + 2)%nat with (S (S (ncalls w))) in H2 by lia.
  replace (ncalls w + 3)%nat with (S (S (S (ncalls w)))) in H3 by lia.
  replace (ncalls w + 4)%nat with (S (S (S (S (ncalls w))))) in H4 by lia.
  unfold add_com, try_except, str_of, after_except, remote_val, loginfo,
    logerr, emit, remote, ret, raise, bind.
  repeat progress
    (cbn [fst snd times trace ncalls nreads nsleeps];
     rewrite ?H0, ?H1, ?H2, ?H3, ?H4, ?Hr).
  reflexivity.
Qed.

End Handlers.

(** ** publish in exact arithmetic *)

Section ExactPublish.

Local Open Scope Q_scope.

Variable env : Env (F := Q).
Variable dt : Q.

Lemma pymin_le_r (a b : Q) : pymin a b <= b.
Proof.
  unfold pymin. cbn [flt exact]. destruct (Qltb b a) eqn:E.
  - apply Qle_refl.
  - now apply Qltb_ge in E.
Qed.

Lemma pymin_le_l (a b : Q) : pymin a b <= a.
Proof.
  unfold pymin. cbn [flt exact]. destruct (Qltb b a) eqn:E.
  - apply Qltb_lt in E. now apply Qlt_le_weak.
  - apply Qle_refl.
Qed.

Lemma pymin_glb (a b c : Q) : c <= a -> c <= b -> c <= pymin a b.
Proof.
  intros Ha Hb. unfold pymin. cbn [flt exact]. now destruct (Qltb b a).
Qed.

Lemma skipn_nth_error {A} (l : list A) (k : nat) (x : A) :
  nth_error l k = Some x -> skipn k l = x :: skipn (S k) l.
Proof.
  revert k. induction l as [ | a l IH ]; intros [ | k ] E; try discriminate.
  - now injection E as ->.
  - cbn [skipn]. apply IH. exact E.
Qed.

Lemma time_in_compute_quiet (e : event (F := Q)) (tr : list event) :
  ~ starts_with_call tr -> time_in_compute (e :: tr) = time_in_compute tr.
Proof.
  intros Hh. cbn [time_in_compute]. destruct e; try reflexivity.
  destruct tr as [ | [ c | | | | ] tr ]; try reflexivity.
  exfalso. apply Hh. exact I.
Qed.

Lemma publish_loop_drains (g : list Q) (advance : Q) (start : Z) (K : nat) :
  (forall j, (K <= j)%nat ->
             inject_Z (Z.of_nat (List.length g))
             <= advance + to_sec (now_at env j - start) * frequency dt) ->
  forall fuel s w,
    times w = Some g ->
    (n s <= List.length g)%nat ->
    quiet_from env (nsleeps w) ->
    reliable_from env (ncalls w) ->
    ((K < nreads w)%nat -> inject_Z (Z.of_nat (List.length g)) <= nstar s) ->
    (List.length g - n s + (K + 1 - nreads w) < fuel)%nat ->
    exists s' w' tr,
      publish_loop env dt fuel advance start s w = Some (Return s', w')
      /\ n s' = List.length g
      /\ times w' = Some g
      /\ trace w' = (trace w ++ tr)%list
      /\ computed tr = skipn (n s) g
      /\ computation_time s' = (computation_time s + time_in_compute tr)%Z
      /\ ~ starts_with_call tr
      /\ Forall loop_event tr
      /\ ncalls w' = (ncalls w + (List.length g - n s))%nat.
Proof.
  intros HK. induction fuel as [ | fuel IH ]; intros s w Hw Hn Hq Hr Hinv Hfuel;
    [ lia | ].
  destruct w as [ts tr0 nc nr ns]. cbn [times nsleeps ncalls nreads trace] in *.
  subst ts.
  cbn [publish_loop len_times get_times bind ret times].
  destruct (n s <? List.length g)%nat eqn:En.
  2:{ apply Nat.ltb_ge in En. assert (Es : n s = List.length g) by lia.
      exists s, {| times := Some g; trace := tr0; ncalls := nc; nreads := nr; nsleeps := ns |}, [].
      repeat split; cbn [times trace ncalls]; auto.
      - now rewrite app_nil_r.
      - rewrite Es, skipn_all. reflexivity.
      - cbn. lia.
      - lia. }
  apply Nat.ltb_lt in En.
  destruct (nth_error g (n s)) as [ t | ] eqn:Et;
    [ | apply nth_error_None in Et; lia ].
  unfold publish_turn.
  cbn [flt of_int exact].
  destruct (Qltb (inject_Z (Z.of_nat (n s))) (nstar s)) eqn:Eb.
  - (* catching up *)
    pose proof (Hr nc (le_n _)) as Hf.
    unfold time_now, times_at, len_times, get_times, remote, ret, raise, bind.
    repeat progress
      (cbn [fst snd times trace ncalls nreads nsleeps n nstar computation_time now];
       rewrite ?Et, ?Hf).
    edestruct IH as (s' & w' & tr & Hrun & Hn' & Hw' & Htr & Hc & Hct & Hh & Hev & Hnc);
      [ | | | | | | exists s', w', ([Now (now_at env nr); Call (Compute t);
                                    Now (now_at env (S nr))] ++ tr)%list;
                    split; [ exact Hrun | ] ].
    + reflexivity.
    + cbn [n]. lia.
    + exact Hq.
    + cbn [ncalls]. intros j Hj. apply Hr. lia.
    + cbn [nreads nstar]. intros HKr.
      apply pymin_glb; [ apply HK; lia | apply Qle_refl ].
    + cbn [n nreads]. lia.
    + cbn [n nstar computation_time trace ncalls] in *.
      repeat split.
      * exact Hn'.
      * exact Hw'.
      * rewrite Htr, <- !app_assoc. reflexivity.
      * cbn [computed flat_map app]. fold (computed tr). rewrite Hc.
        symmetry. now apply skipn_nth_error.
      * rewrite Hct. cbn [app].
        change (time_in_compute (Now (now_at env nr) :: Call (Compute t)
                                 :: Now (now_at env (S nr)) :: tr))
          with ((now_at env (S nr) - now_at env nr)
                + time_in_compute (Call (Compute t) :: Now (now_at env (S nr)) :: tr))%Z.
        rewrite (time_in_compute_quiet (Call (Compute t))) by (cbn; tauto).
        rewrite (time_in_compute_quiet _ _ Hh). lia.
      * cbn. tauto.
      * repeat constructor. exact Hev.
      * lia.
  - (* pacing *)
    apply Qltb_ge in Eb.
    assert (HnrK : (nr <= K)%nat).
    { destruct (Nat.le_gt_cases nr K) as [ | HKr ]; [ assumption | exfalso ].
      specialize (Hinv HKr).
      assert (Hlt : inject_Z (Z.of_nat (n s)) < inject_Z (Z.of_nat (List.length g)))
        by (rewrite <- Zlt_Qlt; lia).
      lra. }
    pose proof (Hq ns (le_n _)) as Ha.
    unfold rate_sleep, time_now, times_at, len_times, get_times, remote, ret, raise, bind.
    repeat progress
      (cbn [fst snd times trace ncalls nreads nsleeps n nstar computation_time now];
       rewrite ?Ha).
    edestruct IH as (s' & w' & tr & Hrun & Hn' & Hw' & Htr & Hc & Hct & Hh & Hev & Hnc);
      [ | | | | | | exists s', w', ([Sleep 100; Now (now_at env nr)] ++ tr)%list;
                    split; [ exact Hrun | ] ].
    + reflexivity.
    + cbn [n]. lia.
    + cbn [nsleeps]. intros j Hj. apply Hq. lia.
    + exact Hr.
    + cbn [nreads nstar]. intros HKr.
      apply pymin_glb; [ apply HK; lia | apply Qle_refl ].
    + cbn [n nreads]. lia.
    + cbn [n nstar computation_time trace ncalls] in *.
      repeat split.
      * exact Hn'.
      * exact Hw'.
      * rewrite Htr, <- !app_assoc. reflexivity.
      * exact Hc.
      * rewrite Hct. cbn [app].
        rewrite (time_in_compute_quiet (Sleep 100)) by (cbn; tauto).
        rewrite (time_in_compute_quiet _ _ Hh). reflexivity.
      * cbn. tauto.
      * repeat constructor. exact Hev.
      * exact Hnc.
Qed.

Lemma time_in_compute_passive (tr post : list (event (F := Q))) :
  Forall passive post ->
  time_in_compute (tr ++ post) = time_in_compute tr.
Proof.
  intros Hp. induction tr as [ | e tr IH ].
  - cbn [app]. induction Hp as [ | p post Hp1 Hp IHp ]; [ reflexivity | ].
    rewrite time_in_compute_quiet; [ exact IHp | ].
    destruct Hp as [ | q post Hq _ ]; [ tauto | ].
    destruct q; cbn in *; tauto.
  - cbn [app time_in_compute]. rewrite IH.
    destruct e; try reflexivity.
    destruct tr as [ | e1 tr ].
    { cbn [app]. destruct Hp as [ | p post Hp1 _ ]; [ reflexivity | ].
      destruct p; cbn in Hp1; try tauto; reflexivity. }
    destruct e1 as [ c | | | | ]; try reflexivity.
    destruct c; try reflexivity.
    destruct tr as [ | e2 tr ]; [ | reflexivity ].
    cbn [app]. destruct Hp as [ | p post Hp1 _ ]; [ reflexivity | ].
    destruct p; cbn in Hp1; try tauto; reflexivity.
Qed.

Lemma frequency_pos : 0 < dt -> 0 < frequency dt.
Proof.
  intros Hdt. unfold frequency. cbn [fdiv of_int exact]. unfold Qdiv.
  change (inject_Z 1) with 1. rewrite Qmult_1_l. now apply Qinv_lt_0_compat.
Qed.

(** In exact arithmetic [to_sec] is the division by 10^9. *)
Lemma to_sec_exact (a : Z) :
  to_sec (F := Q) a == inject_Z a / inject_Z 1000000000.
Proof.
  unfold to_sec. cbn [fadd fdiv of_int exact].
  rewrite (Z.div_mod a 1000000000) at 3 by lia.
  rewrite inject_Z_plus, inject_Z_mult. field.
Qed.

Lemma to_sec_le (a b : Z) : (a <= b)%Z -> to_sec (F := Q) a <= to_sec b.
Proof.
  intros Hab. rewrite !to_sec_exact. unfold Qdiv.
  apply Qmult_le_compat_r.
  - now rewrite <- Zle_Qle.
  - apply Qlt_le_weak. reflexivity.
Qed.

(** Once the clock is far enough, the watermark is the size of the grid. *)
Lemma watermark_reaches_size (advance : Q) (start : Z) (m : nat) :
  0 < dt -> advancing env ->
  exists K, forall j, (K <= j)%nat ->
    inject_Z (Z.of_nat m)
    <= advance + to_sec (now_at env j - start) * frequency dt.
Proof.
  intros Hdt Hadv.
  set (X := (inject_Z (Z.of_nat m) - advance) * dt * inject_Z 1000000000).
  destruct (Hadv (start + Qceiling X)%Z) as [K HK].
  exists K. intros j Hj. specialize (HK j Hj).
  assert (HD : X <= inject_Z (now_at env j - start)).
  { eapply Qle_trans; [ apply Qle_ceiling | ]. rewrite <- Zle_Qle. lia. }
  rewrite to_sec_exact. unfold frequency. cbn [fdiv fmul fadd of_int exact].
  set (D := inject_Z (now_at env j - start)) in *.
  assert (Hg : 0 < inject_Z 1000000000) by reflexivity.
  assert (Hc : 0 < / inject_Z 1000000000 * / dt)
    by (apply Qmult_lt_0_compat; now apply Qinv_lt_0_compat).
  assert (HX : X * (/ inject_Z 1000000000 * / dt)
               == inject_Z (Z.of_nat m) - advance).
  { unfold X. field. lra. }
  assert (HDc : X * (/ inject_Z 1000000000 * / dt)
                <= D * (/ inject_Z 1000000000 * / dt)).
  { apply Qmult_le_compat_r; [ exact HD | now apply Qlt_le_weak ]. }
  assert (HE : D / inject_Z 1000000000 * (inject_Z 1 / dt)
               == D * (/ inject_Z 1000000000 * / dt)).
  { field. lra. }
  rewrite HE. lra.
Qed.


Lemma logged_app (l : level) (a b : list (event (F := Q))) :
  logged l (a ++ b) = logged l a || logged l b.
Proof. apply existsb_app. Qed.

Lemma loop_events_not_logged (l : level) (tr : list (event (F := Q))) :
  Forall loop_event tr -> logged l tr = false.
Proof.
  induction 1 as [ | e tr He _ IH ]; [ reflexivity | ].
  cbn [logged existsb]. fold (logged l tr). rewrite IH.
  destruct e as [ c | | | | ]; cbn in He; try tauto; now destruct l.
Qed.

Lemma computed_app (a b : list (event (F := Q))) :
  computed (a ++ b) = (computed a ++ computed b)%list.
Proof. apply flat_map_app. Qed.

Lemma publish_runs (g : list Q) (w : world) :
  g <> [] ->
  times w = Some g ->
  quiet_from env (nsleeps w) ->
  reliable_from env (ncalls w) ->
  advancing env ->
  0 < dt ->
  exists fuel w' tr,
    publish env dt fuel w = Some (Return tt, w')
    /\ times w' = None
    /\ trace w' = (trace w ++ tr)%list
    /\ computed tr = g
    /\ ncalls w' = (ncalls w + List.length g)%nat
    /\ (exists tr0, tr = tr0 ++ finish (List.length g))%list
    /\ logged Warn tr
       = Qle_bool dt (to_sec (time_in_compute tr)
                      / inject_Z (Z.of_nat (List.length g)))
    /\ logged Err tr = false.
Proof.
  intros Hg Hw Hq Hr Hadv Hdt.
  destruct w as [ts tr0 nc nr ns]. cbn [times nsleeps ncalls nreads trace] in *.
  subst ts.
  set (advance := (of_int 150 / of_int 1000 * frequency dt)%py).
  destruct (watermark_reaches_size advance (now_at env nr) (List.length g) Hdt Hadv)
    as [K0 HK0].
  set (K := Nat.max K0 (nr + 2)).
  assert (HK : forall j, (K <= j)%nat ->
             inject_Z (Z.of_nat (List.length g))
             <= advance + to_sec (now_at env j - now_at env nr) * frequency dt)
    by (intros j Hj; apply HK0; lia).
  set (s0 := {| n := 0;
                nstar := pymin advance (of_int (Z.of_nat (List.length g)));
                computation_time := 0; now := now_at env (S nr) |}).
  set (w0 := {| times := Some g;
                trace := ((tr0 ++ [Log Info "Start publishing path (size is {})"
                                      [AInt (Z.of_nat (List.length g))]])
                          ++ [Now (now_at env nr)]) ++ [Now (now_at env (S nr))];
                ncalls := nc; nreads := S (S nr); nsleeps := ns |}).
  destruct (publish_loop_drains g advance (now_at env nr) K HK
              (List.length g + (K + 1) + 1)%nat s0 w0)
    as (s' & w' & tr & Hrun & Hn' & Hw' & Htr & Hc & Hct & Hh & Hev & Hnc).
  { reflexivity. }
  { cbn [n s0]. lia. }
  { exact Hq. }
  { exact Hr. }
  { cbn [nreads w0]. lia. }
  { cbn [n s0 nreads w0]. lia. }
  exists (List.length g + (K + 1) + 1)%nat.
  unfold publish, publish_enter, time_now, len_times, loginfo, emit, get_times,
    ret, raise, bind.
  cbn [fst snd times trace ncalls nreads nsleeps].
  fold advance. fold s0. fold w0. rewrite Hrun.
  unfold publish_leave, logwarn, loginfo, emit, set_times, ret, raise, bind.
  rewrite Hn'.
  destruct (List.length g =? 0)%nat eqn:E0;
    [ apply Nat.eqb_eq in E0; destruct g; [ congruence | discriminate ] | ].
  cbn [fst snd times trace ncalls nreads nsleeps fle fdiv of_int exact].
  cbn [n s0 computation_time] in Hct, Hc. cbn [ncalls w0 trace] in Hnc, Htr.
  rewrite Z.add_0_l in Hct. rewrite Nat.sub_0_r in Hnc. cbn [skipn] in Hc.
  set (pre := ([Log Info "Start publishing path (size is {})"
                  [AInt (Z.of_nat (List.length g))];
                Now (now_at env nr); Now (now_at env (S nr))]
               : list (event (F := Q)))).
  assert (Etr : trace w' = (tr0 ++ pre ++ tr)%list)
    by (rewrite Htr; unfold pre; now rewrite <- !app_assoc).
  assert (Hpre : time_in_compute (pre ++ tr) = time_in_compute tr).
  { unfold pre. cbn [app].
    rewrite !time_in_compute_quiet by (cbn; tauto). reflexivity. }
  destruct (Qle_bool dt (to_sec (computation_time s')
                         / inject_Z (Z.of_nat (List.length g)))) eqn:Ew.
  - eexists.
    exists (pre ++ tr
            ++ [Log Warn "The average sampling time of the reference trajectory ({}) is higher than the execution time ({}). Consider subsampling or preprocessing."
                  [AFloat (to_sec (computation_time s')
                           / inject_Z (Z.of_nat (List.length g)));
                   AFloat dt]]
            ++ finish (List.length g))%list.
    split; [ reflexivity | ].
    cbn [times trace ncalls].
    split; [ reflexivity | ].
    split; [ rewrite Etr; unfold finish; rewrite <- !app_assoc; reflexivity | ].
    split; [ rewrite !computed_app, Hc; unfold pre; cbn; now rewrite app_nil_r | ].
    split; [ exact Hnc | ].
    split; [ eexists; rewrite !app_assoc; reflexivity | ].
    split.
    + rewrite !app_assoc, !time_in_compute_passive by (repeat constructor).
      rewrite Hpre, <- Hct, Ew, <- !app_assoc.
      rewrite !logged_app. cbn. now rewrite orb_true_r.
    + rewrite !logged_app, (loop_events_not_logged Err tr Hev). reflexivity.
  - eexists. exists (pre ++ tr ++ finish (List.length g))%list.
    split; [ reflexivity | ].
    cbn [times trace ncalls].
    split; [ reflexivity | ].
    split; [ rewrite Etr; unfold finish; rewrite <- !app_assoc; reflexivity | ].
    split; [ rewrite !computed_app, Hc; unfold pre; cbn; now rewrite app_nil_r | ].
    split; [ exact Hnc | ].
    split; [ eexists; rewrite !app_assoc; reflexivity | ].
    split.
    + rewrite !app_assoc, !time_in_compute_passive by (repeat constructor).
      rewrite Hpre, <- Hct, Ew, <- !app_assoc.
      rewrite !logged_app, (loop_events_not_logged Warn tr Hev). reflexivity.
    + rewrite !logged_app, (loop_events_not_logged Err tr Hev). reflexivity.
Qed.


(** C1. [publish] on a grid of M samples, with a clock that advances, no
    remote call that raises and no read served meanwhile, calls [compute]
    M times: once per sample time, in the order of the grid. It returns
    with the grid cleared, after it has published on publish_done and
    logged the number of samples. *)
Theorem publish_computes_each_sample_once (g : list Q) (w : world) :
  g <> [] ->
  times w = Some g ->
  quiet_from env (nsleeps w) ->
  reliable_from env (ncalls w) ->
  advancing env ->
  0 < dt ->
  exists fuel w' tr,
    publish env dt fuel w = Some (Return tt, w')
    /\ trace w' = (trace w ++ tr)%list
    /\ computed tr = g
    /\ ncalls w' = (ncalls w + List.length g)%nat
    /\ times w' = None
    /\ (exists tr0, tr = tr0 ++ finish (List.length g))%list.
Proof.
  intros Hg Hw Hq Hr Hadv Hdt.
  destruct (publish_runs g w Hg Hw Hq Hr Hadv Hdt)
    as (fuel & w' & tr & Hrun & Hnone & Htr & Hc & Hnc & Hfin & _).
  exists fuel, w', tr. repeat split; assumption.
Qed.

(** C10. [publishFirst] on a node that holds a grid computes the first
    sample time and leaves the grid as it is; the [publish] that follows
    computes every sample time of the grid, the first one again. *)
Theorem publishFirst_keeps_the_grid (g : list Q) (t0 : Q) (w : world) :
  nth_error g 0 = Some t0 ->
  times w = Some g ->
  quiet_from env (nsleeps w) ->
  reliable_from env (ncalls w) ->
  advancing env ->
  0 < dt ->
  exists w1,
    publishFirst env w = (Return (true, ""%string), w1)
    /\ times w1 = Some g
    /\ trace w1 = (trace w ++ [Call (Compute t0)])%list
    /\ exists fuel w2 tr,
         publish env dt fuel w1 = Some (Return tt, w2)
         /\ trace w2 = (trace w1 ++ tr)%list
         /\ computed tr = g
         /\ times w2 = None.
Proof.
  intros Ht Hw Hq Hr Hadv Hdt.
  eexists. split.
  { apply publishFirst_ready with (g := g); [ exact Hw | exact Ht | ].
    apply Hr. apply le_n. }
  split; [ reflexivity | ]. split; [ reflexivity | ].
  destruct (publish_runs g
              {| times := Some g; trace := trace w ++ [Call (Compute t0)];
                 ncalls := S (ncalls w); nreads := nreads w;
                 nsleeps := nsleeps w |})
    as (fuel & w2 & tr & Hrun & Hnone & Htr & Hc & _).
  - intros ->. discriminate.
  - reflexivity.
  - exact Hq.
  - cbn [ncalls]. intros j Hj. apply Hr. lia.
  - exact Hadv.
  - exact Hdt.
  - exists fuel, w2, tr. repeat split; assumption.
Qed.

End ExactPublish.

(** ** The watermark of publish in exact arithmetic *)

Section ExactWatermark.

Local Open Scope Q_scope.

Variable env : Env (F := Q).
Variable dt : Q.

(** What a turn of the loop does to the watermark. *)
Lemma turn_watermark (g : list Q) (advance : Q) (start : Z)
  (s s' : locals) (w w' : world) :
  times w = Some g ->
  arrival env (nsleeps w) = None ->
  publish_turn env dt advance start s w = (Return s', w') ->
  exists j,
    (nreads w <= j < nreads w')%nat
    /\ nstar s' = pymin (advance + to_sec (now_at env j - start) * frequency dt)
                        (inject_Z (Z.of_nat (List.length g)))
    /\ times w' = Some g
    /\ (nsleeps w <= nsleeps w')%nat.
Proof.
  destruct w as [ts tr0 nc nr ns]. cbn [times nsleeps].
  intros -> Ha. unfold publish_turn. cbn [flt of_int exact].
  destruct (Qltb (inject_Z (Z.of_nat (n s))) (nstar s)).
  - unfold time_now, times_at, len_times, get_times, remote, ret, raise, bind.
    cbn [fst snd times trace ncalls nreads nsleeps].
    destruct (nth_error g (n s)) as [ t | ]; [ | discriminate ].
    cbn [fst snd times trace ncalls nreads nsleeps].
    destruct (fault env nc); [ discriminate | ].
    cbn [fst snd times trace ncalls nreads nsleeps n nstar computation_time now].
    intros [= <- <-]. exists (S nr).
    cbn [nstar times nreads nsleeps]. repeat split; lia.
  - unfold rate_sleep, time_now, len_times, get_times, ret, raise, bind.
    cbn [fst snd times trace ncalls nreads nsleeps]. rewrite Ha.
    cbn [fst snd times trace ncalls nreads nsleeps n nstar computation_time now].
    intros [= <- <-]. exists nr.
    cbn [nstar times nreads nsleeps]. repeat split; lia.
Qed.

Lemma in_publish_invariant (w0 : world) (g : list Q) (advance : Q) (start : Z)
  (s : locals) (w : world) :
  0 < dt ->
  monotone_clock env ->
  times w0 = Some g ->
  quiet_from env (nsleeps w0) ->
  in_publish env dt w0 advance start s w ->
  times w = Some g
  /\ (nsleeps w0 <= nsleeps w)%nat
  /\ start = now_at env (nreads w0)
  /\ nstar s <= inject_Z (Z.of_nat (List.length g))
  /\ exists j, (nreads w0 <= j < nreads w)%nat
               /\ nstar s <= advance + to_sec (now_at env j - start) * frequency dt.
Proof.
  intros Hdt Hmono Hw0 Hq Hin. induction Hin as [ s w E | s s' w w' g' Hin IH Hw Hn E ].
  - destruct w0 as [ts tr0 nc nr ns]. cbn [times nsleeps nreads] in *. subst ts.
    unfold publish_enter, time_now, len_times, loginfo, emit, get_times,
      ret, raise, bind in E.
    cbn [fst snd times trace ncalls nreads nsleeps] in E.
    injection E as <- <- <- <-.
    cbn [times nsleeps nreads nstar].
    split; [ reflexivity | ]. split; [ lia | ]. split; [ reflexivity | ].
    split; [ apply pymin_le_r | ].
    exists nr. split; [ lia | ].
    rewrite Z.sub_diag.
    eapply Qle_trans; [ apply pymin_le_l | ].
    unfold to_sec. cbn [fdiv fmul fadd of_int exact].
    setoid_replace (inject_Z 0 / inject_Z 1000000000) with 0 by reflexivity.
    lra.
  - destruct IH as (Hwg & Hns & Hstart & HM & j & Hj & Hle).
    rewrite Hwg in Hw. injection Hw as <-.
    destruct (turn_watermark g advance start s s' w w' Hwg
                (Hq _ Hns) E) as (j' & Hj' & Hs' & Hw' & Hns').
    split; [ exact Hw' | ]. split; [ lia | ]. split; [ exact Hstart | ].
    rewrite Hs'.
    split; [ apply pymin_le_r | ].
    exists j'. split; [ lia | ]. apply pymin_le_l.
Qed.

(** C2. While [publish] runs on a grid of M samples, with a clock that
    never goes back and a positive control period, the watermark [nstar]
    starts at min(advance, M), never exceeds M, and a turn of the loop never
    decreases it. *)
Theorem watermark_never_decreases (w0 : world) (g : list Q) :
  0 < dt ->
  monotone_clock env ->
  times w0 = Some g ->
  quiet_from env (nsleeps w0) ->
  (forall advance start s w,
     publish_enter env dt w0 = (Return (advance, start, s), w) ->
     advance == (150 # 1000) * frequency dt
     /\ nstar s = pymin advance (inject_Z (Z.of_nat (List.length g))))
  /\ (forall advance start s w,
        in_publish env dt w0 advance start s w ->
        nstar s <= inject_Z (Z.of_nat (List.length g))
        /\ forall s' w',
             (n s < List.length g)%nat ->
             publish_turn env dt advance start s w = (Return s', w') ->
             nstar s <= nstar s'
             /\ nstar s' <= inject_Z (Z.of_nat (List.length g))).
Proof.
  intros Hdt Hmono Hw0 Hq. split.
  - intros advance start s w E.
    destruct w0 as [ts tr0 nc nr ns]. cbn [times] in Hw0. subst ts.
    unfold publish_enter, time_now, len_times, loginfo, emit, get_times,
      ret, raise, bind in E.
    cbn [fst snd times trace ncalls nreads nsleeps] in E.
    injection E as <- _ <- _. split; reflexivity.
  - intros advance start s w Hin.
    destruct (in_publish_invariant w0 g advance start s w Hdt Hmono Hw0 Hq Hin)
      as (Hwg & Hns & Hstart & HM & j & Hj & Hle).
    split; [ exact HM | ]. intros s' w' Hn E.
    destruct (turn_watermark g advance start s s' w w' Hwg (Hq _ Hns) E)
      as (j' & Hj' & Hs' & _).
    rewrite Hs'. split; [ | apply pymin_le_r ].
    apply pymin_glb; [ | exact HM ].
    eapply Qle_trans; [ exact Hle | ].
    assert (Hf : 0 < frequency dt) by now apply frequency_pos.
    assert (Ht : to_sec (now_at env j - start) <= to_sec (now_at env j' - start)).
    { apply to_sec_le. assert (now_at env j <= now_at env j')%Z
        by (apply Hmono; lia). lia. }
    apply Qplus_le_r. apply Qmult_le_compat_r; [ exact Ht | ].
    now apply Qlt_le_weak.
Qed.

End ExactWatermark.

(** ** Runs on the test bench *)

Section Bench.

Local Open Scope Q_scope.

Lemma calm_quiet (k : nat) : quiet_from calm k.
Proof. intros j _. reflexivity. Qed.

Lemma calm_reliable (k : nat) : reliable_from calm k.
Proof. intros j _. reflexivity. Qed.

Lemma calm_advancing : advancing calm.
Proof.
  intros T. exists (Z.to_nat T). intros j Hj.
  cbn [now_at calm bench]. lia.
Qed.

Lemma calm_monotone : monotone_clock calm.
Proof. intros i j Hij. cbn [now_at calm bench]. lia. Qed.

Lemma publish_computes_each_sample_once_witness :
  exists fuel w' tr,
    publish calm (1 # 100) fuel (holding grid3) = Some (Return tt, w')
    /\ trace w' = (trace (holding grid3) ++ tr)%list
    /\ computed tr = grid3
    /\ ncalls w' = (ncalls (holding grid3) + List.length grid3)%nat
    /\ times w' = None
    /\ (exists tr0, tr = tr0 ++ finish (List.length grid3))%list.
Proof.
  apply (publish_computes_each_sample_once calm (1 # 100) grid3 (holding grid3)).
  - discriminate.
  - reflexivity.
  - apply calm_quiet.
  - apply calm_reliable.
  - apply calm_advancing.
  - reflexivity.
Defined.

Lemma publishFirst_keeps_the_grid_witness :
  exists w1,
    publishFirst calm (holding grid3) = (Return (true, ""%string), w1)
    /\ times w1 = Some grid3
    /\ trace w1 = (trace (holding grid3) ++ [Call (Compute 0)])%list
    /\ exists fuel w2 tr,
         publish calm (1 # 100) fuel w1 = Some (Return tt, w2)
         /\ trace w2 = (trace w1 ++ tr)%list
         /\ computed tr = grid3
         /\ times w2 = None.
Proof.
  apply (publishFirst_keeps_the_grid calm (1 # 100) grid3 0 (holding grid3)).
  - reflexivity.
  - reflexivity.
  - apply calm_quiet.
  - apply calm_reliable.
  - apply calm_advancing.
  - reflexivity.
Defined.

Lemma watermark_never_decreases_witness :
  match publish_enter calm (1 # 100) (holding grid20) with
  | (Return (advance, start, s), w) =>
      match publish_turn calm (1 # 100) advance start s w with
      | (Return s', _) => nstar s <= nstar s' /\ nstar s' <= 20
      | (Raise _, _) => False
      end
  | (Raise _, _) => False
  end.
Proof.
  destruct (publish_enter calm (1 # 100) (holding grid20))
    as [ [ [ [advance start] s ] | e ] w ] eqn:E;
    [ | vm_compute in E; discriminate E ].
  destruct (publish_turn calm (1 # 100) advance start s w)
    as [ [ s' | e ] w' ] eqn:E'.
  - apply (proj2 (watermark_never_decreases calm (1 # 100) (holding grid20)
                    grid20 eq_refl calm_monotone eq_refl (calm_quiet 0))
             advance start s w
             (in_publish_enter calm (1 # 100) (holding grid20) E))
      with (w' := w'); [ | exact E' ].
    vm_compute in E. injection E as _ _ <- _. vm_compute. lia.
  - vm_compute in E. injection E as <- <- <- <-.
    vm_compute in E'. discriminate E'.
Defined.

Lemma publishFirst_waits_for_a_grid_witness :
  publishFirst calm idle
  = (Return (false, not_ready),
     {| times := None;
        trace := [Log Warn keep_trying []]
                 ++ repeat (Sleep 1000) 1000
                 ++ [Log Err "Could not print first message" []];
        ncalls := 0; nreads := 0; nsleeps := 1000 |})
  /\ publishFirst calm (holding grid3)
     = (Return (true, ""%string),
        {| times := Some grid3;
           trace := [Call (Compute 0)];
           ncalls := 1; nreads := 0; nsleeps := 0 |})
  /\ publishFirst late_reader idle
     = (Return (true, ""%string),
        {| times := Some [1 # 2; 1];
           trace := [Log Warn keep_trying []; Sleep 1000; Sleep 1000;
                     Sleep 1000; Call (Compute (1 # 2))];
           ncalls := 1; nreads := 0; nsleeps := 3 |}).
Proof.
  split; [ | split ].
  - apply (proj1 (publishFirst_waits_for_a_grid calm idle)).
    + reflexivity.
    + intros j _. reflexivity.
  - apply (proj1 (proj2 (publishFirst_waits_for_a_grid calm (holding grid3)))
             grid3 0); reflexivity.
  - apply (proj2 (proj2 (publishFirst_waits_for_a_grid late_reader idle))
             2%nat [1 # 2; 1] (1 # 2)); try reflexivity.
    + lia.
    + intros j Hj. destruct j as [ | [ | j ] ]; [ reflexivity | reflexivity | lia ].
Defined.

(** C7, counterexample. The path server raises on [pathLength]: [read] ends
    with that exception, and has logged nothing. *)
Lemma read_lets_the_failure_out :
  exists w',
    read flaky (1 # 100) 3 idle = (Raise (RemoteError "pathLength"), w')
    /\ trace w' = [Call Hpp; Call (PathLength 3)]
    /\ logged Err (trace w') = false.
Proof.
  eexists. split; [ vm_compute; reflexivity | ]. split; reflexivity.
Qed.

Lemma remote_failures_by_handler_witness :
  fst (read flaky (1 # 100) 3 idle) = Raise (RemoteError "pathLength")
  /\ exists w' tr,
       setJointNames flaky ["root_joint"; "arm_joint"]%string idle
       = (Return false, w')
       /\ trace w' = tr
       /\ logged Err tr = true.
Proof.
  split.
  - apply (proj1 (proj2 (proj2 (remote_failures_by_handler flaky (1 # 100) idle)))
             3%Z _ (snd (read flaky (1 # 100) 3 idle)) 1%nat).
    + apply surjective_pairing.
    + vm_compute. lia.
    + reflexivity.
  - destruct (proj1 (remote_failures_by_handler flaky (1 # 100) idle)
                ["root_joint"; "arm_joint"]%string)
      as (b & w' & tr & E & Htr & _ & Hb).
    assert (Hr : raised_between flaky 0 (ncalls w')).
    { exists 1%nat, (RemoteError "pathLength").
      split; [ | reflexivity ].
      vm_compute in E. injection E as _ <-. vm_compute. lia. }
    destruct (Hb Hr) as [-> Hl].
    exists w', tr. repeat split; assumption.
Defined.

(** [getQueueSize] on the node that never read a path. *)
Example getQueueSize_before_any_read :
  getQueueSize (F := Q) idle = (Raise TypeError, idle).
Proof. reflexivity. Qed.

(** [getQueueSize] once [publish] has drained a grid. *)
Example getQueueSize_after_publish :
  match publish calm (1 # 100) 10 (holding grid3) with
  | Some (Return _, w) => fst (getQueueSize w) = Raise TypeError
  | _ => False
  end.
Proof. vm_compute. reflexivity. Qed.

(** The control period is 10 ms. With 2 ms inside each [compute] no warning
    is logged; with 20 ms inside each, one is, and [publish] still drains
    the grid. *)
Example publish_keeps_up :
  match publish calm (1 # 100) 30 (holding grid20) with
  | Some (Return _, w) =>
      computed (trace w) = grid20 /\ logged Warn (trace w) = false
  | _ => False
  end.
Proof. vm_compute. split; reflexivity. Qed.

Example publish_falls_behind :
  match publish slow_compute (1 # 100) 30 (holding grid20) with
  | Some (Return _, w) =>
      computed (trace w) = grid20 /\ logged Warn (trace w) = true
      /\ time_in_compute (trace w) = 400000000%Z
  | _ => False
  end.
Proof. vm_compute. repeat split; reflexivity. Qed.

Lemma failed_read_keeps_the_grid_witness :
  (exists e, fst (read flaky (1 # 100) 3 (holding grid3)) = Raise e)
  /\ times (snd (read flaky (1 # 100) 3 (holding grid3))) = Some grid3.
Proof.
  apply (proj1 (failed_read_keeps_the_grid flaky (1 # 100) (holding grid3)) 3%Z).
  - apply surjective_pairing.
  - exists 1%nat, (RemoteError "pathLength").
    split; [ vm_compute; lia | reflexivity ].
Defined.

End Bench.

(** * The grid on the doubles *)

Section Doubles.

Local Open Scope py_scope.


(** A number compares equal to itself. *)
Lemma SFeqb_refl (x : spec_float) : x <> S754_nan -> SFeqb x x = true.
Proof.
  unfold SFeqb, SFcompare. destruct x as [ s | s | | s m e ]; intros Hx;
    try congruence; try (now destruct s).
  rewrite Z.compare_refl, Pos.compare_cont_refl. now destruct s.
Qed.








End Doubles.



(** A path of 100 ms at 100 Hz: on the doubles [0.1 * 100.0] is [10.0] and
    the grid has 11 sample times, where the exact product of the same two
    doubles is above 10. *)
Example grid_of_100ms_binary64 :
  ceil (fmul (fabs period_100ms) (frequency period_10ms)) = Return 10%Z
  /\ exists ts,
       sample_times period_10ms (of_int 0) period_100ms = Return ts
       /\ List.length ts = 11%nat.
Proof.
  split; [ vm_compute; reflexivity | ].
  eexists. split; [ vm_compute; reflexivity | reflexivity ].
Qed.

(** * publish, whatever the arithmetic *)

Section AnyPublish.

Context {F : Type} `{PyFloat F}.
Variable env : Env (F := F).
Variable dt : F.
Local Open Scope py_scope.

Lemma throttle_open (M r0 k j i : nat) :
  throttle_opens env dt M r0 k = true ->
  (r0 + 2 + k <= j < r0 + 2 + k + (2 * M + 3))%nat -> (i < M)%nat ->
  (of_int (Z.of_nat i) <? watermark_at env dt M r0 j) = true.
Proof.
  unfold throttle_opens. intros Ho Hj Hi.
  rewrite forallb_forall in Ho.
  assert (Hin : In j (seq (r0 + 2 + k) (2 * M + 3))) by (apply in_seq; lia).
  specialize (Ho j Hin). rewrite forallb_forall in Ho.
  apply Ho. apply in_seq. lia.
Qed.

Lemma time_in_compute_skip (e : event (F := F)) (tr : list event) :
  ~ starts_with_call tr -> time_in_compute (e :: tr) = time_in_compute tr.
Proof.
  intros Hh. cbn [time_in_compute]. destruct e; try reflexivity.
  destruct tr as [ | [ c | | | | ] tr ]; try reflexivity.
  exfalso. apply Hh. exact I.
Qed.

Lemma time_in_compute_logs (tr post : list (event (F := F))) :
  Forall passive post ->
  time_in_compute (tr ++ post) = time_in_compute tr.
Proof.
  intros Hp. induction tr as [ | e tr IH ].
  - cbn [app]. induction Hp as [ | p post Hp1 Hp IHp ]; [ reflexivity | ].
    rewrite time_in_compute_skip; [ exact IHp | ].
    destruct Hp as [ | q post Hq _ ]; [ tauto | ].
    destruct q; cbn in *; tauto.
  - cbn [app time_in_compute]. rewrite IH.
    destruct e; try reflexivity.
    destruct tr as [ | e1 tr ].
    { cbn [app]. destruct Hp as [ | p post Hp1 _ ]; [ reflexivity | ].
      destruct p; cbn in Hp1; try tauto; reflexivity. }
    destruct e1 as [ c | | | | ]; try reflexivity.
    destruct c; try reflexivity.
    destruct tr as [ | e2 tr ]; [ | reflexivity ].
    cbn [app]. destruct Hp as [ | p post Hp1 _ ]; [ reflexivity | ].
    destruct p; cbn in Hp1; try tauto; reflexivity.
Qed.

Lemma logged_concat (l : level) (a b : list (event (F := F))) :
  logged l (a ++ b) = logged l a || logged l b.
Proof. apply existsb_app. Qed.

Lemma loop_logs_nothing (l : level) (tr : list (event (F := F))) :
  Forall loop_event tr -> logged l tr = false.
Proof.
  induction 1 as [ | e tr He _ IH ]; [ reflexivity | ].
  cbn [logged existsb]. fold (logged l tr). rewrite IH.
  destruct e as [ c | | | | ]; cbn in He; try tauto; now destruct l.
Qed.

Lemma computed_concat (a b : list (event (F := F))) :
  computed (a ++ b) = (computed a ++ computed b)%list.
Proof. apply flat_map_app. Qed.

(** The loop of [publish] ends once the throttle opens: it then sends one
    sample per turn. *)
Lemma publish_loop_opens (g : list F) (r0 k : nat) :
  throttle_opens env dt (List.length g) r0 k = true ->
  forall fuel s w,
    times w = Some g ->
    (n s <= List.length g)%nat ->
    quiet_from env (nsleeps w) ->
    reliable_from env (ncalls w) ->
    (nreads w <= r0 + 2 + k + 2 + 2 * n s)%nat ->
    ((r0 + 2 + k < nreads w)%nat ->
     forall i, (i < List.length g)%nat -> (of_int (Z.of_nat i) <? nstar s) = true) ->
    (List.length g - n s + (r0 + 2 + k + 1 - nreads w) < fuel)%nat ->
    exists s' w' tr,
      publish_loop env dt fuel (of_int 150 / of_int 1000 * frequency dt)
                   (now_at env r0) s w = Some (Return s', w')
      /\ n s' = List.length g
      /\ times w' = Some g
      /\ trace w' = (trace w ++ tr)%list
      /\ computed tr = skipn (n s) g
      /\ computation_time s' = (computation_time s + time_in_compute tr)%Z
      /\ ~ starts_with_call tr
      /\ Forall loop_event tr
      /\ ncalls w' = (ncalls w + (List.length g - n s))%nat.
Proof.
  intros Ho. set (K := (r0 + 2 + k)%nat) in *.
  induction fuel as [ | fuel IH ]; intros s w Hw Hn Hq Hr Hnr Hinv Hfuel;
    [ lia | ].
  destruct w as [ts tr0 nc nr ns]. cbn [times nsleeps ncalls nreads trace] in *.
  subst ts.
  cbn [publish_loop len_times get_times bind ret times].
  destruct (n s <? List.length g)%nat eqn:En.
  2:{ apply Nat.ltb_ge in En. assert (Es : n s = List.length g) by lia.
      exists s, {| times := Some g; trace := tr0; ncalls := nc; nreads := nr;
                   nsleeps := ns |}, [].
      repeat split; cbn [times trace ncalls]; auto.
      - now rewrite app_nil_r.
      - rewrite Es, skipn_all. reflexivity.
      - cbn. lia.
      - lia. }
  apply Nat.ltb_lt in En.
  destruct (nth_error g (n s)) as [ t | ] eqn:Et;
    [ | apply nth_error_None in Et; lia ].
  unfold publish_turn.
  destruct (of_int (Z.of_nat (n s)) <? nstar s) eqn:Eb.
  - (* catching up *)
    pose proof (Hr nc (le_n _)) as Hf.
    unfold time_now, times_at, len_times, get_times, remote, ret, raise, bind.
    repeat progress
      (cbn [fst snd times trace ncalls nreads nsleeps n nstar computation_time now];
       rewrite ?Et, ?Hf).
    edestruct IH as (s' & w' & tr & Hrun & Hn' & Hw' & Htr & Hc & Hct & Hh & Hev & Hnc);
      [ | | | | | | | exists s', w', ([Now (now_at env nr); Call (Compute t);
                                      Now (now_at env (S nr))] ++ tr)%list;
                      split; [ exact Hrun | ] ].
    + reflexivity.
    + cbn [n]. lia.
    + exact Hq.
    + cbn [ncalls]. intros j Hj. apply Hr. lia.
    + cbn [nreads n]. lia.
    + cbn [nreads nstar]. intros HKr i Hi.
      apply (throttle_open (List.length g) r0 k (S nr) i Ho); [ fold K; lia | exact Hi ].
    + cbn [n nreads]. lia.
    + cbn [n nstar computation_time trace ncalls] in *.
      repeat split.
      * exact Hn'.
      * exact Hw'.
      * rewrite Htr, <- !app_assoc. reflexivity.
      * cbn [computed flat_map app]. fold (computed tr). rewrite Hc.
        symmetry. now apply skipn_nth_error.
      * rewrite Hct. cbn [app].
        change (time_in_compute (Now (now_at env nr) :: Call (Compute t)
                                 :: Now (now_at env (S nr)) :: tr))
          with ((now_at env (S nr) - now_at env nr)
                + time_in_compute (Call (Compute t) :: Now (now_at env (S nr)) :: tr))%Z.
        rewrite (time_in_compute_skip (Call (Compute t))) by (cbn; tauto).
        rewrite (time_in_compute_skip _ _ Hh). lia.
      * cbn. tauto.
      * repeat constructor. exact Hev.
      * lia.
  - (* pacing *)
    assert (HnrK : (nr <= K)%nat).
    { destruct (Nat.le_gt_cases nr K) as [ | HKr ]; [ assumption | exfalso ].
      rewrite (Hinv HKr (n s) En) in Eb. discriminate Eb. }
    pose proof (Hq ns (le_n _)) as Ha.
    unfold rate_sleep, time_now, times_at, len_times, get_times, remote, ret, raise, bind.
    repeat progress
      (cbn [fst snd times trace ncalls nreads nsleeps n nstar computation_time now];
       rewrite ?Ha).
    edestruct IH as (s' & w' & tr & Hrun & Hn' & Hw' & Htr & Hc & Hct & Hh & Hev & Hnc);
      [ | | | | | | | exists s', w', ([Sleep 100; Now (now_at env nr)] ++ tr)%list;
                      split; [ exact Hrun | ] ].
    + reflexivity.
    + cbn [n]. lia.
    + cbn [nsleeps]. intros j Hj. apply Hq. lia.
    + exact Hr.
    + cbn [nreads n]. lia.
    + cbn [nreads nstar]. intros HKr i Hi.
      apply (throttle_open (List.length g) r0 k nr i Ho); [ fold K; lia | exact Hi ].
    + cbn [n nreads]. lia.
    + cbn [n nstar computation_time trace ncalls] in *.
      repeat split.
      * exact Hn'.
      * exact Hw'.
      * rewrite Htr, <- !app_assoc. reflexivity.
      * exact Hc.
      * rewrite Hct. cbn [app].
        rewrite (time_in_compute_skip (Sleep 100)) by (cbn; tauto).
        rewrite (time_in_compute_skip _ _ Hh). reflexivity.
      * cbn. tauto.
      * repeat constructor. exact Hev.
      * exact Hnc.
Qed.

(** [publish] on a grid, when the throttle opens: it returns, with the whole
    grid sent. *)
Lemma publish_returns (g : list F) (w : world (F := F)) (k : nat) :
  g <> [] ->
  times w = Some g ->
  quiet_from env (nsleeps w) ->
  reliable_from env (ncalls w) ->
  throttle_opens env dt (List.length g) (nreads w) k = true ->
  exists fuel w' tr,
    publish env dt fuel w = Some (Return tt, w')
    /\ times w' = None
    /\ trace w' = (trace w ++ tr)%list
    /\ computed tr = g
    /\ ncalls w' = (ncalls w + List.length g)%nat
    /\ (exists tr0, tr = tr0 ++ finish (List.length g))%list
    /\ logged Warn tr
       = (dt <=? to_sec (time_in_compute tr) / of_int (Z.of_nat (List.length g)))
    /\ logged Err tr = false.
Proof.
  intros Hg Hw Hq Hr Ho.
  destruct w as [ts tr0 nc nr ns]. cbn [times nsleeps ncalls nreads trace] in *.
  subst ts.
  set (s0 := {| n := 0;
                nstar := pymin (of_int 150 / of_int 1000 * frequency dt)
                               (of_int (Z.of_nat (List.length g)));
                computation_time := 0; now := now_at env (S nr) |}).
  set (w0 := {| times := Some g;
                trace := ((tr0 ++ [Log Info "Start publishing path (size is {})"
                                      [AInt (Z.of_nat (List.length g))]])
                          ++ [Now (now_at env nr)]) ++ [Now (now_at env (S nr))];
                ncalls := nc; nreads := S (S nr); nsleeps := ns |}).
  destruct (publish_loop_opens g nr k Ho
              (List.length g + (nr + 2 + k + 1) + 1)%nat s0 w0)
    as (s' & w' & tr & Hrun & Hn' & Hw' & Htr & Hc & Hct & Hh & Hev & Hnc).
  { reflexivity. }
  { cbn [n s0]. lia. }
  { exact Hq. }
  { exact Hr. }
  { cbn [nreads w0 n s0]. lia. }
  { cbn [nreads w0]. lia. }
  { cbn [n s0 nreads w0]. lia. }
  exists (List.length g + (nr + 2 + k + 1) + 1)%nat.
  unfold publish, publish_enter, time_now, len_times, loginfo, emit, get_times,
    ret, raise, bind.
  cbn [fst snd times trace ncalls nreads nsleeps].
  fold s0. fold w0. rewrite Hrun.
  unfold publish_leave, logwarn, loginfo, emit, set_times, ret, raise, bind.
  rewrite Hn'.
  destruct (List.length g =? 0)%nat eqn:E0;
    [ apply Nat.eqb_eq in E0; destruct g; [ congruence | discriminate ] | ].
  cbn [fst snd times trace ncalls nreads nsleeps].
  cbn [n s0 computation_time] in Hct, Hc. cbn [ncalls w0 trace] in Hnc, Htr.
  rewrite Z.add_0_l in Hct. rewrite Nat.sub_0_r in Hnc. cbn [skipn] in Hc.
  set (pre := ([Log Info "Start publishing path (size is {})"
                  [AInt (Z.of_nat (List.length g))];
                Now (now_at env nr); Now (now_at env (S nr))]
               : list (event (F := F)))).
  assert (Etr : trace w' = (tr0 ++ pre ++ tr)%list)
    by (rewrite Htr; unfold pre; now rewrite <- !app_assoc).
  assert (Hpre : time_in_compute (pre ++ tr) = time_in_compute tr).
  { unfold pre. cbn [app].
    rewrite !time_in_compute_skip by (cbn; tauto). reflexivity. }
  destruct (dt <=? to_sec (computation_time s')
                   / of_int (Z.of_nat (List.length g))) eqn:Ew.
  - eexists.
    exists (pre ++ tr
            ++ [Log Warn "The average sampling time of the reference trajectory ({}) is higher than the execution time ({}). Consider subsampling or preprocessing."
                  [AFloat (to_sec (computation_time s')
                           / of_int (Z.of_nat (List.length g)));
                   AFloat dt]]
            ++ finish (List.length g))%list.
    split; [ reflexivity | ].
    cbn [times trace ncalls].
    split; [ reflexivity | ].
    split; [ rewrite Etr; unfold finish; rewrite <- !app_assoc; reflexivity | ].
    split; [ rewrite !computed_concat, Hc; unfold pre; cbn; now rewrite app_nil_r | ].
    split; [ exact Hnc | ].
    split; [ eexists; rewrite !app_assoc; reflexivity | ].
    split.
    + rewrite !app_assoc, !time_in_compute_logs by (repeat constructor).
      rewrite Hpre, <- Hct, Ew, <- !app_assoc.
      rewrite !logged_concat. cbn. now rewrite orb_true_r.
    + rewrite !logged_concat, (loop_logs_nothing Err tr Hev). reflexivity.
  - eexists. exists (pre ++ tr ++ finish (List.length g))%list.
    split; [ reflexivity | ].
    cbn [times trace ncalls].
    split; [ reflexivity | ].
    split; [ rewrite Etr; unfold finish; rewrite <- !app_assoc; reflexivity | ].
    split; [ rewrite !computed_concat, Hc; unfold pre; cbn; now rewrite app_nil_r | ].
    split; [ exact Hnc | ].
    split; [ eexists; rewrite !app_assoc; reflexivity | ].
    split.
    + rewrite !app_assoc, !time_in_compute_logs by (repeat constructor).
      rewrite Hpre, <- Hct, Ew, <- !app_assoc.
      rewrite !logged_concat, (loop_logs_nothing Warn tr Hev). reflexivity.
    + rewrite !logged_concat, (loop_logs_nothing Err tr Hev). reflexivity.
Qed.


End AnyPublish.


(** On the doubles an average equal to the period warns: 30 ms spent in
    three compute calls, a period of 10 ms. *)
Example publish_warns_at_the_period_binary64 :
  match publish (bench64 10000000 duration_70ms) period_10ms 20
                (holding samples3) with
  | Some (Return _, w') =>
      time_in_compute (trace w') = 30000000%Z
      /\ fdiv (to_sec 30000000) (of_int 3) = period_10ms
      /\ logged Warn (trace w') = true
  | _ => False
  end.
Proof. vm_compute. repeat split; reflexivity. Qed.

(** * Further properties of the handlers *)

(** [contains] decides the substring test [sub in s] of Python. *)
Lemma prefix_split (p s : string) :
  prefix p s = true <-> exists post, s = (p ++ post)%string.
Proof.
  revert s. induction p as [ | a p IH ]; intros s.
  - split; [ intros _; now exists s | intros _; now destruct s ].
  - destruct s as [ | b s ]; cbn [prefix].
    + split; [ discriminate | intros [post E]; discriminate ].
    + destruct (ascii_dec a b) as [ <- | Hab ].
      * rewrite IH. split; intros [post E]; exists post.
        -- cbn. now rewrite E.
        -- cbn in E. now injection E.
      * split; [ discriminate | ].
        intros [post E]. cbn in E. injection E as E _. congruence.
Qed.

Lemma contains_occurs (sub s : string) :
  contains sub s = true <-> occurs_in sub s.
Proof.
  induction s as [ | b s IH ]; cbn [contains]; rewrite orb_true_iff, prefix_split.
  - split.
    + intros [ [post E] | H ]; [ | discriminate ].
      exists ""%string, post. exact E.
    + intros (pre & post & E). left.
      destruct pre; [ now exists post | discriminate ].
  - rewrite IH. split.
    + intros [ [post E] | (pre & post & E) ].
      * exists ""%string, post. exact E.
      * exists (String b pre), post. cbn. now rewrite E.
    + intros (pre & post & E). destruct pre as [ | a pre ].
      * left. now exists post.
      * right. cbn in E. injection E as _ E. now exists pre, post.
Qed.

Section Effects.

Context {F : Type} `{PyFloat F}.
Variable env : Env (F := F).
Variable dt : F.

Ltac go :=
  repeat progress (cbn [fst snd times trace ncalls nreads nsleeps]).

Lemma published_app (a b : list (event (F := F))) :
  published (a ++ b) = (published a ++ published b)%list.
Proof. apply flat_map_app. Qed.

Lemma calls_snoc_call (tr : list (event (F := F))) (c : call) :
  calls (tr ++ [Call c]) = (calls tr ++ [c])%list.
Proof. unfold calls. rewrite flat_map_app. reflexivity. Qed.

Lemma calls_snoc_log (tr : list (event (F := F))) (l : level) (fmt : string)
  (args : list fmtarg) :
  calls (tr ++ [Log l fmt args]) = calls tr.
Proof. unfold calls. rewrite flat_map_app. cbn. now rewrite app_nil_r. Qed.

(** ** What leaves the grid and the topics alone *)

Lemma harmless_bind {A B} (c : M A) (k : A -> M B) :
  harmless env c -> (forall a, harmless env (k a)) -> harmless env (bind c k).
Proof.
  intros Hc Hk w r w' Hq E. unfold bind in E.
  destruct (c w) as [ [ a | e1 ] w1 ] eqn:E1.
  - destruct (Hc _ _ _ Hq E1) as (Ht1 & Hp1 & Hs1).
    assert (Hq1 : quiet_from env (nsleeps w1))
      by (intros j Hj; apply Hq; lia).
    destruct (Hk a _ _ _ Hq1 E) as (Ht2 & Hp2 & Hs2).
    repeat split; [ congruence | congruence | lia ].
  - injection E as <- <-. exact (Hc _ _ _ Hq E1).
Qed.

Lemma harmless_ret {A} (a : A) : harmless env (ret a).
Proof. intros w r w' _ [= <- <-]. repeat split; lia. Qed.

Lemma harmless_raise {A} (e : exn) : harmless env (raise (A := A) e).
Proof. intros w r w' _ [= <- <-]. repeat split; lia. Qed.

Lemma harmless_get_times : harmless env get_times.
Proof. intros w r w' _ [= <- <-]. repeat split; lia. Qed.

Lemma harmless_time_now : harmless env (time_now env).
Proof.
  intros w r w' _ [= <- <-]. cbn [times trace nsleeps].
  rewrite published_app. cbn. rewrite app_nil_r. repeat split; lia.
Qed.

Lemma harmless_remote (c : call) : harmless env (remote env c).
Proof.
  intros w r w' _. unfold remote.
  destruct (fault env (ncalls w)); intros [= <- <-]; cbn [times trace nsleeps];
    rewrite published_app; cbn; rewrite app_nil_r; repeat split; lia.
Qed.

Lemma harmless_log (l : level) (fmt : string) (args : list fmtarg) :
  harmless env (emit (Log l fmt args)).
Proof.
  intros w r w' _ [= <- <-]. cbn [times trace nsleeps].
  rewrite published_app. cbn. rewrite app_nil_r. repeat split; lia.
Qed.

Lemma harmless_rate_sleep (hz : Z) : harmless env (rate_sleep env hz).
Proof.
  intros w r w' Hq [= <- <-]. cbn [times trace nsleeps].
  rewrite (Hq (nsleeps w)) by lia.
  rewrite published_app. cbn. rewrite app_nil_r. repeat split; lia.
Qed.

Create HintDb harm.
#[local] Hint Resolve harmless_ret harmless_raise harmless_get_times
  harmless_time_now harmless_remote harmless_log harmless_rate_sleep : harm.

Ltac harm :=
  repeat first
    [ apply harmless_bind; [ | intro ]
    | match goal with
      | |- harmless env (match ?x with _ => _ end) => destruct x
      | |- harmless env (if ?x then _ else _) => destruct x
      end
    | solve [ auto with harm ] ].

Lemma harmless_len_times : harmless env len_times.
Proof. unfold len_times. harm. Qed.

Lemma harmless_publish_turn (advance : F) (start : Z) (s : locals) :
  harmless env (publish_turn env dt advance start s).
Proof. unfold publish_turn, times_at, len_times. harm. Qed.

Lemma harmless_publish_enter : harmless env (publish_enter env dt).
Proof. unfold publish_enter, len_times, loginfo. harm. Qed.

Lemma harmless_publish_loop (fuel : nat) (advance : F) (start : Z) :
  forall (s : locals) (w : world) r w',
    quiet_from env (nsleeps w) ->
    publish_loop env dt fuel advance start s w = Some (r, w') ->
    times w' = times w
    /\ published (trace w') = published (trace w)
    /\ (nsleeps w <= nsleeps w')%nat.
Proof.
  induction fuel as [ | fuel IH ]; intros s w r w' Hq E; [ discriminate | ].
  cbn [publish_loop] in E.
  destruct (len_times w) as [ [ len | e0 ] w0 ] eqn:E0.
  - destruct (harmless_len_times _ _ _ Hq E0) as (Ht0 & Hp0 & Hs0).
    assert (Hq0 : quiet_from env (nsleeps w0)) by (intros j Hj; apply Hq; lia).
    destruct (n s <? len)%nat.
    + destruct (publish_turn env dt advance start s w0) as [ [ s1 | e1 ] w1 ] eqn:E1.
      * destruct (harmless_publish_turn advance start s _ _ _ Hq0 E1)
          as (Ht1 & Hp1 & Hs1).
        assert (Hq1 : quiet_from env (nsleeps w1))
          by (intros j Hj; apply Hq; lia).
        destruct (IH _ _ _ _ Hq1 E) as (Ht2 & Hp2 & Hs2).
        repeat split; [ congruence | congruence | lia ].
      * injection E as <- <-.
        destruct (harmless_publish_turn advance start s _ _ _ Hq0 E1)
          as (Ht1 & Hp1 & Hs1).
        repeat split; [ congruence | congruence | lia ].
    + injection E as <- <-. repeat split; [ congruence | congruence | lia ].
  - injection E as <- <-. exact (harmless_len_times _ _ _ Hq E0).
Qed.

(** X1 (publish). While no read is served on another thread, [publish]
    clears the grid and publishes on publish_done exactly when it returns:
    a [publish] that ends with an exception (a [compute] that raises, no
    grid, an empty one) leaves [self.times] as it was and publishes nothing,
    so the samples not yet sent are still queued. *)
Theorem publish_done_iff_returns (fuel : nat) (w w' : world (F := F))
  (r : outcome unit) :
  quiet_from env (nsleeps w) ->
  publish env dt fuel w = Some (r, w') ->
  match r with
  | Return _ =>
      times w' = None
      /\ published (trace w') = (published (trace w) ++ ["publish_done"%string])%list
  | Raise _ =>
      times w' = times w
      /\ published (trace w') = published (trace w)
  end.
Proof.
  intros Hq E. unfold publish in E.
  destruct (publish_enter env dt w) as [ [ [ [advance start] s ] | e0 ] w0 ] eqn:E0.
  - destruct (harmless_publish_enter _ _ _ Hq E0) as (Ht0 & Hp0 & Hs0).
    assert (Hq0 : quiet_from env (nsleeps w0)) by (intros j Hj; apply Hq; lia).
    destruct (publish_loop env dt fuel advance start s w0)
      as [ [ [ s1 | e1 ] w1 ] | ] eqn:E1; [ | | discriminate ].
    + destruct (harmless_publish_loop _ _ _ _ _ _ _ Hq0 E1) as (Ht1 & Hp1 & Hs1).
      injection E as E.
      unfold publish_leave, logwarn, loginfo, emit, set_times, ret, raise, bind in E.
      destruct (n s1 =? 0)%nat.
      * injection E as <- <-. split; congruence.
      * destruct (fle dt _); cbn [fst snd times trace ncalls nreads nsleeps] in E;
          injection E as <- <-; cbn [times trace];
          rewrite !published_app; cbn; rewrite ?app_nil_r;
          (split; [ reflexivity | congruence ]).
    + destruct (harmless_publish_loop _ _ _ _ _ _ _ Hq0 E1) as (Ht1 & Hp1 & Hs1).
      injection E as <- <-. split; congruence.
  - injection E as <- <-.
    destruct (harmless_publish_enter _ _ _ Hq E0) as (Ht0 & Hp0 & Hs0).
    split; congruence.
Qed.

(** X2 (publish). [publish] needs samples. With no grid, [len(self.times)]
    raises [TypeError] before anything is logged. With an empty grid the loop
    is skipped and the average [computation_time / n] divides by zero:
    [ZeroDivisionError], with no compute call, the grid not cleared and
    nothing published on publish_done. *)
Theorem publish_without_samples (fuel : nat) (w : world (F := F)) :
  (times w = None -> publish env dt fuel w = Some (Raise TypeError, w))
  /\ (times w = Some [] ->
      exists w',
        publish env dt (S fuel) w = Some (Raise ZeroDivisionError, w')
        /\ times w' = Some []
        /\ calls (trace w') = calls (trace w)
        /\ published (trace w') = published (trace w)).
Proof.
  destruct w as [ts tr0 nc nr ns]. cbn [times trace]. split; intros ->.
  - reflexivity.
  - eexists. split; [ reflexivity | ]. cbn [times trace].
    split; [ reflexivity | ].
    unfold calls, published. rewrite !flat_map_app. cbn.
    now rewrite !app_nil_r.
Qed.

(** ** publishFirst in any environment *)

Lemma wait_for_times_bounded (count : nat) :
  forall (w : world (F := F)) r w',
    wait_for_times env count w = (r, w') ->
    exists k,
      (k <= count)%nat
      /\ r = Return tt
      /\ nsleeps w' = (nsleeps w + k)%nat
      /\ trace w' = (trace w ++ repeat (Sleep 1000) k)%list
      /\ ncalls w' = ncalls w /\ nreads w' = nreads w
      /\ (k < count -> times w' <> None)%nat.
Proof.
  induction count as [ | count IH ]; intros w r w' E.
  - injection E as <- <-. exists 0%nat. cbn [repeat].
    rewrite app_nil_r, Nat.add_0_r. repeat split; lia.
  - cbn [wait_for_times] in E. unfold bind at 1 in E. unfold get_times at 1 in E.
    destruct (times w) as [ g | ] eqn:Hw.
    + injection E as <- <-. exists 0%nat. cbn [repeat].
      rewrite app_nil_r, Nat.add_0_r. repeat split; try lia.
      intros _. congruence.
    + unfold bind, rate_sleep in E.
      apply IH in E. destruct E as (k & Hk & -> & Hs & Htr & Hc & Hr & Ht).
      cbn [nsleeps trace ncalls nreads] in *.
      exists (S k). repeat split; try lia.
      * rewrite Htr, <- app_assoc. reflexivity.
      * intros Hlt. apply Ht. lia.
Qed.

(** X3 (publishFirst). Whatever the other threads and the server do,
    [publishFirst] ends: it sleeps at most 1000 times, always at 1000 Hz,
    makes at most one remote call and never reads the clock. When it answers
    [False] it has slept the full 1000 times, made no remote call, and there
    is still no grid. *)
Theorem publishFirst_is_bounded (w w' : world (F := F)) (r : outcome (bool * string)) :
  publishFirst env w = (r, w') ->
  (nsleeps w' <= nsleeps w + 1000)%nat
  /\ (ncalls w' <= ncalls w + 1)%nat
  /\ nreads w' = nreads w
  /\ (forall hz, In (Sleep hz) (trace w') -> In (Sleep hz) (trace w) \/ hz = 1000%Z)
  /\ (forall m, r = Return (false, m) ->
        (nsleeps w' = nsleeps w + 1000)%nat /\ times w' = None /\ ncalls w' = ncalls w).
Proof.
  intros E. unfold publishFirst in E.
  unfold bind at 1 in E. unfold get_times at 1 in E.
  set (w0 := snd ((match times w with
                   | Some _ => ret tt
                   | None => logwarn keep_trying []
                   end) w)) in *.
  assert (Hw0 : (match times w with
                   | Some _ => ret tt
                   | None => logwarn keep_trying []
                   end) w = (Return tt, w0)
                /\ nsleeps w0 = nsleeps w /\ ncalls w0 = ncalls w
                /\ nreads w0 = nreads w
                /\ (forall hz, In (Sleep hz) (trace w0) -> In (Sleep hz) (trace w))).
  { unfold w0. destruct (times w); cbn; repeat split; auto.
    intros hz Hin. apply in_app_or in Hin.
    destruct Hin as [ | [ | [] ] ]; [ assumption | discriminate ]. }
  destruct Hw0 as (E0 & Hs0 & Hc0 & Hr0 & Hin0).
  unfold bind at 1 in E.
  change (match times w with
          | Some _ => ret tt
          | None => logwarn "First message not ready yet. Keep trying during one second." []
          end w) with ((match times w with
                   | Some _ => ret tt
                   | None => logwarn keep_trying []
                   end) w) in E.
  rewrite E0 in E.
  unfold bind at 1 in E.
  destruct (wait_for_times env 1000 w0) as [r1 w1] eqn:E1.
  destruct (wait_for_times_bounded 1000 _ _ _ E1)
    as (k & Hk & -> & Hs1 & Htr1 & Hc1 & Hr1 & Ht1).
  assert (Hsl : forall hz, In (Sleep hz) (trace w1) ->
                           In (Sleep hz) (trace w) \/ hz = 1000%Z).
  { intros hz Hin. rewrite Htr1 in Hin. apply in_app_or in Hin.
    destruct Hin as [ Hin | Hin ]; [ left; now apply Hin0 | right ].
    apply repeat_spec in Hin. now injection Hin. }
  assert (Hsnoc : forall (e : event) hz, (forall z, e <> Sleep z) ->
            In (Sleep hz) (trace w1 ++ [e]) ->
            In (Sleep hz) (trace w) \/ hz = 1000%Z).
  { intros e hz He Hin. apply in_app_or in Hin.
    destruct Hin as [ Hin | [ Hin | [] ] ]; [ now apply Hsl | ].
    now apply He in Hin. }
  unfold bind at 1 in E. unfold get_times at 1 in E.
  destruct (times w1) as [ g | ] eqn:Hw1.
  - unfold times_at, remote, get_times, ret, raise, bind in E.
    rewrite Hw1 in E.
    destruct (nth_error g 0) as [ t0 | ].
    + destruct (fault env (ncalls w1)); injection E as <- <-;
        cbn [nsleeps ncalls nreads trace].
      * split; [ lia | ]. split; [ lia | ]. split; [ lia | ].
        split; [ intros hz; now apply Hsnoc | intros m [=] ].
      * split; [ lia | ]. split; [ lia | ]. split; [ lia | ].
        split; [ intros hz; now apply Hsnoc | intros m [=] ].
    + injection E as <- <-.
      split; [ lia | ]. split; [ lia | ]. split; [ lia | ].
      split; [ exact Hsl | intros m [=] ].
  - unfold logerr, emit, ret, bind in E. injection E as <- <-.
    cbn [nsleeps ncalls nreads trace times].
    assert (k = 1000)%nat.
    { destruct (Nat.lt_ge_cases k 1000) as [Hlt | Hge]; [ | lia ].
      exfalso. now apply Ht1. }
    split; [ lia | ]. split; [ lia | ]. split; [ lia | ].
    split; [ intros hz; now apply Hsnoc | ].
    intros m _. split; [ lia | ]. split; [ exact Hw1 | lia ].
Qed.

(** X4 (publishFirst). [publishFirst] has no handler. On an empty grid,
    [self.times[0]] raises [IndexError] before any remote call. On a grid
    whose first sample time is t0, a [compute] that raises ends it with that
    exception, after the one call. In both cases the grid is what it was and
    nothing is logged. *)
Theorem publishFirst_lets_failures_out (w : world (F := F)) :
  (times w = Some [] -> publishFirst env w = (Raise IndexError, w))
  /\ (forall t0 g e,
        times w = Some (t0 :: g) ->
        fault env (ncalls w) = Some e ->
        publishFirst env w =
        (Raise e,
         {| times := times w;
            trace := trace w ++ [Call (Compute t0)];
            ncalls := S (ncalls w); nreads := nreads w;
            nsleeps := nsleeps w |})).
Proof.
  destruct w as [ts tr0 nc nr ns]. cbn [times trace ncalls nreads nsleeps].
  split.
  - intros ->. reflexivity.
  - intros t0 g e -> Hf.
    unfold publishFirst, wait_for_times, times_at, remote, get_times, ret,
      raise, bind.
    cbn [fst snd times trace ncalls nreads nsleeps nth_error].
    now rewrite Hf.
Qed.

(** ** Configuration services *)

(** X5 (setJointNames). When its two remote calls go through,
    [setJointNames] answers [True] and forwards the requested names in their
    order, without those that contain "root_joint" anywhere in them: a name
    is forwarded exactly when it was requested and "root_joint" does not
    occur in it. *)
Theorem setJointNames_drops_root_joint (names : list string) (w : world (F := F)) :
  fault env (ncalls w) = None ->
  fault env (S (ncalls w)) = None ->
  let kept := filter (fun name => negb (contains "root_joint" name)) names in
  setJointNames env names w =
  (Return true,
   {| times := times w;
      trace := trace w ++ [Call Hpp; Call (SetJointNames kept)];
      ncalls := S (S (ncalls w)); nreads := nreads w;
      nsleeps := nsleeps w |})
  /\ (forall name, In name kept <->
                   In name names /\ ~ occurs_in "root_joint" name).
Proof.
  intros H0 H1 kept. split.
  - unfold setJointNames, try_except, remote, ret, bind.
    repeat progress (cbn [fst snd times trace ncalls nreads nsleeps];
                     rewrite ?H0, ?H1).
    now rewrite <- app_assoc.
  - intros name. unfold kept.
    rewrite filter_In, negb_true_iff, <- contains_occurs.
    now destruct (contains "root_joint" name).
Qed.

(** X6 (resetTopics). [resetTopics] never touches the grid: whatever its
    two remote calls do, [self.times] and the answer of [getQueueSize] are
    what they were. It returns exactly when neither call raises, and logs
    "Reset topics" only then. *)
Theorem resetTopics_keeps_the_grid (w w' : world (F := F)) (r : outcome unit) :
  resetTopics env w = (r, w') ->
  times w' = times w
  /\ fst (getQueueSize w') = fst (getQueueSize w)
  /\ (r = Return tt <->
      fault env (ncalls w) = None /\ fault env (S (ncalls w)) = None)
  /\ (logged Info (trace w') = true ->
      logged Info (trace w) = true \/ r = Return tt).
Proof.
  unfold resetTopics, loginfo, emit, remote, ret, bind.
  destruct (fault env (ncalls w)) as [ e0 | ] eqn:E0; go;
    [ | destruct (fault env (S (ncalls w))) as [ e1 | ] eqn:E1; go ];
    intros [= <- <-]; go; unfold getQueueSize, len_times, get_times, bind; go.
  all: unfold logged; rewrite ?existsb_app; cbn [existsb is_log];
    rewrite ?orb_false_r; intuition (try discriminate; try congruence).
  all: now destruct (times w).
Qed.

(** X7 (addOperationalFrame). [addOperationalFrame] always returns, after
    exactly one remote call and one log line: [True] with an information
    line when the call goes through and the discretization answers [True],
    [False] with an error line when the call raises or the discretization
    answers [False]. The grid is not touched. *)
Theorem addOperationalFrame_answers (value : string) (w : world (F := F)) :
  let ok := match fault env (ncalls w) with
            | Some _ => false
            | None => add_operational_frame env value Position
            end in
  exists fmt args,
    addOperationalFrame env value w =
    (Return ok,
     {| times := times w;
        trace := trace w ++ [Call (AddOperationalFrame value Position);
                             Log (if ok then Info else Err) fmt args];
        ncalls := S (ncalls w); nreads := nreads w; nsleeps := nsleeps w |}).
Proof.
  unfold addOperationalFrame, try_except, remote_val, loginfo, logerr, emit,
    remote, ret, bind.
  destruct (fault env (ncalls w)) as [ e0 | ]; go;
    [ | destruct (add_operational_frame env value Position) ]; go;
    do 2 eexists; rewrite <- app_assoc; reflexivity.
Qed.

(** X8 (addCenterOfMass, addCenterOfMassVelocity,
    addOperationalFrameVelocity). When no remote call raises and the
    discretization answers [False], the three handlers that format [e] after
    the except clause do not answer [False]: [e] was never bound, they end
    with [UnboundLocalError], under either interpreter, and the error line
    they were about to log is not logged. *)
Theorem refused_without_raising (value : string) (w : world (F := F)) :
  (forall i, (i < 5)%nat -> fault env (ncalls w + i) = None) ->
  (add_center_of_mass env value Position = false ->
   fst (addCenterOfMass env value w) = Raise UnboundLocalError
   /\ logged Err (trace (snd (addCenterOfMass env value w)))
      = logged Err (trace w))
  /\ (add_center_of_mass env value Derivative = false ->
      fst (addCenterOfMassVelocity env value w) = Raise UnboundLocalError
      /\ logged Err (trace (snd (addCenterOfMassVelocity env value w)))
         = logged Err (trace w))
  /\ (add_operational_frame env value Derivative = false ->
      fst (addOperationalFrameVelocity env value w) = Raise UnboundLocalError
      /\ logged Err (trace (snd (addOperationalFrameVelocity env value w)))
         = logged Err (trace w)).
Proof.
  intros Hf.
  pose proof (Hf 0%nat ltac:(lia)) as H0. rewrite Nat.add_0_r in H0.
  pose proof (Hf 1%nat ltac:(lia)) as H1. rewrite Nat.add_1_r in H1.
  pose proof (Hf 2%nat ltac:(lia)) as H2.
  pose proof (Hf 3%nat ltac:(lia)) as H3.
  pose proof (Hf 4%nat ltac:(lia)) as H4.
  replace (ncalls w + 2)%nat with (S (S (ncalls w))) in H2 by lia.
  replace (ncalls w + 3)%nat with (S (S (S (ncalls w)))) in H3 by lia.
  replace (ncalls w + 4)%nat with (S (S (S (S (ncalls w))))) in H4 by lia.
  split; [ | split ]; intros Hr; split;
    unfold addCenterOfMass, addCenterOfMassVelocity, addOperationalFrameVelocity,
      add_com, try_except, str_of, after_except, remote_val, loginfo,
      logerr, emit, remote, ret, raise, bind;
    repeat progress
      (cbn [fst snd times trace ncalls nreads nsleeps];
       rewrite ?H0, ?H1, ?H2, ?H3, ?H4, ?Hr);
    try reflexivity;
    unfold logged; rewrite ?existsb_app; cbn; now rewrite ?orb_false_r.
Qed.

(** ** Remote calls, in order *)

Ltac split_fault E :=
  match type of E with
  | context [fault env ?k] => destruct (fault env k) eqn:?
  end.

Ltac use_faults :=
  repeat match goal with
         | Hf : fault env _ = _ |- _ => rewrite Hf
         end.

(** Five calls are attempted exactly when the first four go through. *)
Lemma attempted_all (k : nat) :
  attempted env k 5 = 5%nat <->
  forall i, (i < 4)%nat -> fault env (i + k) = None.
Proof.
  cbn [attempted]. split.
  - intros E i Hi.
    destruct (fault env k) eqn:E0; [ discriminate E | ].
    destruct (fault env (S k)) eqn:E1; [ discriminate E | ].
    destruct (fault env (S (S k))) eqn:E2; [ discriminate E | ].
    destruct (fault env (S (S (S k)))) eqn:E3; [ discriminate E | ].
    destruct i as [ | [ | [ | [ | i ] ] ] ]; cbn [Nat.add]; (assumption || lia).
  - intros Hall.
    pose proof (Hall 0%nat ltac:(lia)) as H0.
    pose proof (Hall 1%nat ltac:(lia)) as H1.
    pose proof (Hall 2%nat ltac:(lia)) as H2.
    pose proof (Hall 3%nat ltac:(lia)) as H3.
    cbn [Nat.add] in *. rewrite H0, H1, H2, H3.
    now destruct (fault env (S (S (S (S k))))).
Qed.

Lemma add_com_attempts (k : kind) (done failed value : string)
  (w w' : world (F := F)) (r : outcome bool) :
  add_com env k done failed value w = (r, w') ->
  calls (trace w')
  = (calls (trace w)
     ++ firstn (attempted env (ncalls w) 5) (com_calls env value k))%list
  /\ ncalls w' = (attempted env (ncalls w) 5 + ncalls w)%nat
  /\ times w' = times w.
Proof.
  unfold add_com, try_except, str_of, after_except, remote_val, loginfo,
    logerr, emit, remote, ret, raise, bind.
  intros E.
  repeat (split_fault E; cbn [fst snd times trace ncalls nreads nsleeps] in E);
    destruct (interpreter env); try destruct (add_center_of_mass env value k);
    cbn [fst snd times trace ncalls nreads nsleeps] in E;
    injection E as <- <-; go;
    repeat (rewrite calls_snoc_log || rewrite calls_snoc_call);
    rewrite <- ?app_assoc;
    cbn [attempted]; use_faults; cbn [firstn com_calls app Nat.add];
    (split; [ reflexivity | split; reflexivity ]).
Qed.

(** X9 (addCenterOfMass, addCenterOfMassVelocity). A centre-of-mass service
    makes its remote calls in the order of [com_calls] and stops at the first
    that raises: the calls it makes are exactly the first [attempted] ones,
    where [attempted] counts up to and including the first call that
    raises. So the release of the computation object that
    [getCenterOfMassComputation] created is requested exactly when the four
    calls before it went through: when the registration itself raises, the
    object is left on the server. The grid is not touched. *)
Theorem centre_of_mass_servant_release (value : string) (w : world (F := F)) :
  (forall r w',
     addCenterOfMass env value w = (r, w') ->
     calls (trace w')
     = (calls (trace w)
        ++ firstn (attempted env (ncalls w) 5) (com_calls env value Position))%list
     /\ ncalls w' = (attempted env (ncalls w) 5 + ncalls w)%nat
     /\ times w' = times w)
  /\ (forall r w',
        addCenterOfMassVelocity env value w = (r, w') ->
        calls (trace w')
        = (calls (trace w)
           ++ firstn (attempted env (ncalls w) 5)
                (com_calls env value Derivative))%list
        /\ ncalls w' = (attempted env (ncalls w) 5 + ncalls w)%nat
        /\ times w' = times w)
  /\ (attempted env (ncalls w) 5 = 5%nat <->
      forall i, (i < 4)%nat -> fault env (i + ncalls w) = None).
Proof.
  split; [ | split ].
  - intros r w' E. eapply add_com_attempts. exact E.
  - intros r w' E. eapply add_com_attempts. exact E.
  - apply attempted_all.
Qed.

Ltac below_five :=
  let i := fresh "i" in let Hi := fresh "Hi" in
  intros i Hi;
  destruct i as [ | [ | [ | [ | [ | i ] ] ] ] ]; cbn [Nat.add]; (assumption || lia).

Ltac all_below5 Hall :=
  pose proof (Hall 0%nat ltac:(lia)); pose proof (Hall 1%nat ltac:(lia));
  pose proof (Hall 2%nat ltac:(lia)); pose proof (Hall 3%nat ltac:(lia));
  pose proof (Hall 4%nat ltac:(lia));
  cbn [Nat.add] in *; congruence.

Lemma add_com_outcomes (k : kind) (done failed value : string)
  (w w' : world (F := F)) (r : outcome bool) :
  add_com env k done failed value w = (r, w') ->
  (r = Return true <->
   (forall i, (i < 5)%nat -> fault env (i + ncalls w) = None)
   /\ add_center_of_mass env value k = true)
  /\ (r = Return false ->
      interpreter env = Python2 /\ raised_between env (ncalls w) (ncalls w'))
  /\ (forall e, r = Raise e -> e = UnboundLocalError).
Proof.
  unfold add_com, try_except, str_of, after_except, remote_val, loginfo,
    logerr, emit, remote, ret, raise, bind.
  intros E.
  repeat (split_fault E; cbn [fst snd times trace ncalls nreads nsleeps] in E);
    destruct (interpreter env) eqn:Hi;
    try destruct (add_center_of_mass env value k) eqn:Ha;
    cbn [fst snd times trace ncalls nreads nsleeps] in E;
    injection E as <- <-; go.
  all: split;
    [ split;
      [ intros Hr; first [ discriminate Hr
                         | split; [ below_five | reflexivity ] ]
      | intros [Hall Hans];
        first [ reflexivity | discriminate Hans | all_below5 Hall ] ]
    | split;
      [ intros Hr;
        first [ discriminate Hr
              | split; [ reflexivity | ];
                unfold raised_between; do 2 eexists;
                split; [ | eassumption ]; lia ]
      | intros ex Hr; first [ discriminate Hr | now injection Hr ] ] ].
Qed.

(** X10 (addCenterOfMass, addCenterOfMassVelocity). The answers of a
    centre-of-mass service. It answers [True] exactly when its five remote
    calls go through and the discretization answers [True]. It answers
    [False] only under Python 2 and only after a remote call has raised.
    Any exception that leaves it is [UnboundLocalError]: under Python 3 it
    never answers [False]. *)
Theorem centre_of_mass_outcomes (value : string) (w : world (F := F)) :
  (forall r w',
     addCenterOfMass env value w = (r, w') ->
     (r = Return true <->
      (forall i, (i < 5)%nat -> fault env (i + ncalls w) = None)
      /\ add_center_of_mass env value Position = true)
     /\ (r = Return false ->
         interpreter env = Python2 /\ raised_between env (ncalls w) (ncalls w'))
     /\ (forall e, r = Raise e -> e = UnboundLocalError))
  /\ (forall r w',
        addCenterOfMassVelocity env value w = (r, w') ->
        (r = Return true <->
         (forall i, (i < 5)%nat -> fault env (i + ncalls w) = None)
         /\ add_center_of_mass env value Derivative = true)
        /\ (r = Return false ->
            interpreter env = Python2 /\ raised_between env (ncalls w) (ncalls w'))
        /\ (forall e, r = Raise e -> e = UnboundLocalError)).
Proof.
  split; intros r w' E; eapply add_com_outcomes; exact E.
Qed.

(** X11 (_read, readSub). [_read] builds the grid before it makes any
    remote call: when the grid cannot be built it makes no call and raises
    the exception of the grid. Otherwise it makes its calls in the order of
    [_read_calls] and stops at the first that raises: the calls it makes are
    exactly the first [attempted] ones. The release of the path handle that
    [getPath] returned is requested exactly when the grid was built and the
    four calls before it went through: when [setPath] raises, the handle is
    left on the server. [_read] returns exactly when the release itself goes
    through too. *)
Theorem read_calls_in_order (pathId : Z) (start L : F) (w w' : world (F := F))
  (r : outcome unit) :
  _read env dt pathId start L w = (r, w') ->
  let m := match sample_times dt start L with
           | Return _ => attempted env (ncalls w) 5
           | Raise _ => 0%nat
           end in
  calls (trace w') = (calls (trace w) ++ firstn m (_read_calls env pathId))%list
  /\ ncalls w' = (m + ncalls w)%nat
  /\ (m = 5%nat <->
      (exists ts, sample_times dt start L = Return ts)
      /\ forall i, (i < 4)%nat -> fault env (i + ncalls w) = None)
  /\ (r = Return tt <-> m = 5%nat /\ fault env (4 + ncalls w) = None)
  /\ (forall e, sample_times dt start L = Raise e -> r = Raise e).
Proof.
  intros E m.
  assert (Hm5 : m = 5%nat <->
                (exists ts, sample_times dt start L = Return ts)
                /\ forall i, (i < 4)%nat -> fault env (i + ncalls w) = None).
  { unfold m. destruct (sample_times dt start L) as [ ts | e ].
    - rewrite attempted_all. split; [ intros Hall; split; [ now exists ts | exact Hall ]
                                    | intros [_ Hall]; exact Hall ].
    - split; [ discriminate | intros [[ts [=]] _] ]. }
  revert E Hm5. unfold m. clear m.
  unfold _read, sample_times, remote_val, loginfo, emit, remote, lift,
    set_times, ret, raise, bind.
  destruct (ceil _) as [ N | e ]; go.
  2:{ intros [= <- <-] Hm5. cbn [firstn]. rewrite app_nil_r.
      split; [ reflexivity | ]. split; [ reflexivity | ].
      split; [ exact Hm5 | ].
      split; [ split; [ discriminate | intros [[=] _] ] | ].
      intros e' [= <-]. reflexivity. }
  destruct (grid dt start L N) as [ ts | e ]; go.
  2:{ intros [= <- <-] Hm5; go. cbn [firstn].
      rewrite calls_snoc_log, app_nil_r.
      split; [ reflexivity | ]. split; [ reflexivity | ].
      split; [ exact Hm5 | ].
      split; [ split; [ discriminate | intros [[=] _] ] | ].
      intros e' [= <-]. reflexivity. }
  intros E Hm5.
  split; [ | split; [ | split; [ exact Hm5 | split; [ | intros e' [=] ] ] ] ];
    revert E; clear Hm5; cbn [attempted Nat.add].
  - intros E.
    repeat (split_fault E; cbn [fst snd times trace ncalls nreads nsleeps] in E);
      injection E as <- <-; go;
      repeat (rewrite calls_snoc_log || rewrite calls_snoc_call);
      rewrite <- ?app_assoc; reflexivity.
  - intros E.
    repeat (split_fault E; cbn [fst snd times trace ncalls nreads nsleeps] in E);
      injection E as <- <-; go; reflexivity.
  - intros E.
    repeat (split_fault E; cbn [fst snd times trace ncalls nreads nsleeps] in E);
      injection E as <- <-; go;
      (split; [ first [ discriminate
                      | intros _; split; [ reflexivity | first [ assumption | reflexivity ] ] ]
              | intros [Hm Hx]; first [ discriminate Hm | congruence | reflexivity ] ]).
Qed.

(** ** The grid, in any arithmetic *)

Local Open Scope py_scope.

(** X12 (__init__, _read). Whatever the arithmetic (exact, or the doubles
    the node runs on) and whatever the sign of the period, which is not null
    since [1. / self.dt] did not raise, a grid that [_read] builds has N + 1
    sample times for N = ceil(|L| * frequency) >= 0; the last one is
    [L + start] as the arithmetic computes it, and the one of index i < N is
    sign(L) * i / frequency + start. *)
Theorem sample_times_shape (start L : F) (ts : list F) :
  (dt =? of_int 0) = false ->
  sample_times dt start L = Return ts ->
  exists N,
    ceil (fabs L * frequency dt) = Return N
    /\ (0 <= N)%Z
    /\ List.length ts = S (Z.to_nat N)
    /\ last ts (of_int 0) = L + start
    /\ forall i, (i < Z.to_nat N)%nat ->
         nth_error ts i
         = Some (of_int (if L <? of_int 0 then -1 else 1)
                 * of_int (Z.of_nat i) / frequency dt + start).
Proof.
  intros _.
  unfold sample_times. destruct (ceil (fabs L * frequency dt)) as [ N | e ];
    [ | discriminate ].
  intros E. exists N. split; [ reflexivity | ].
  assert (HN : (0 <= N)%Z).
  { destruct (Z.le_gt_cases 0 N) as [ | Hneg ]; [ assumption | exfalso ].
    unfold grid, range in E.
    replace (Z.to_nat (N + 1)) with 0%nat in E by lia. discriminate E. }
  split; [ exact HN | ].
  rewrite (grid_steps dt start L N HN) in E. injection E as <-.
  split; [ rewrite length_app, length_map, length_range; cbn; lia | ].
  split; [ apply last_last | ].
  intros i Hi.
  rewrite nth_error_app1 by (rewrite length_map, length_range; exact Hi).
  rewrite nth_error_map. unfold range.
  rewrite nth_error_map, nth_error_seq.
  destruct (Nat.ltb_spec i (Z.to_nat N)) as [ _ | Hge ]; [ reflexivity | lia ].
Qed.

End Effects.

(** * Edges of the grid *)

Section ExactEdges.

Local Open Scope Q_scope.

(** X13 (_read, readSub). In exact arithmetic and for any period that is
    not null, the grid of a read that starts at [start] is the grid of the
    read that starts at 0, shifted by [start] sample by sample; when one
    raises, the other raises the same exception. *)
Theorem sample_times_shifts_with_start (dt start L : Q) :
  ~ dt == 0 ->
  match sample_times dt start L, sample_times dt 0 L with
  | Return ts, Return ts0 => Forall2 (fun t t0 => t == t0 + start) ts ts0
  | Raise e, Raise e0 => e = e0
  | _, _ => False
  end.
Proof.
  intros _. unfold sample_times. cbn [ceil exact fabs fmul].
  set (N := Qceiling (Qabs L * frequency dt)).
  destruct (Z.le_gt_cases 0 N) as [ HN | HN ].
  - rewrite !grid_steps by exact HN.
    apply Forall2_app.
    + induction (range N) as [ | i l IH ]; cbn [map]; constructor;
        [ cbn [fadd fmul fdiv of_int exact]; ring | exact IH ].
    + constructor; [ cbn [fadd exact]; ring | constructor ].
  - unfold grid, range.
    replace (Z.to_nat (N + 1)) with 0%nat by lia. reflexivity.
Qed.

(** X14 (_read). A path of null duration gives, in exact arithmetic and for
    any period that is not null, a grid of one sample time: the start. *)
Theorem zero_duration_gives_one_sample (dt start L : Q) :
  ~ dt == 0 ->
  L == 0 ->
  exists t, sample_times dt start L = Return [t] /\ t == start.
Proof.
  intros _ HL. exists (L + start). split; [ | rewrite HL; ring ].
  unfold sample_times. cbn [ceil exact fabs fmul].
  assert (E : Qceiling (Qabs L * frequency dt) = 0%Z).
  { rewrite <- (Qceiling_Z 0). apply Qceiling_comp.
    rewrite HL. change (inject_Z 0) with 0. change (Qabs 0) with 0. ring. }
  rewrite E, grid_steps by lia. reflexivity.
Qed.

(** X15 (_read). With a negative control period the frequency is negative
    and, in exact arithmetic, [_read] never samples the path: when
    |L| * |frequency| >= 1 the range is empty and [times[-1] = L] raises
    [IndexError]; otherwise the grid is the single sample time [L + start]. *)
Theorem negative_frequency_grid (dt start L : Q) :
  frequency dt < 0 ->
  sample_times dt start L =
  if Qle_bool 1 (Qabs L * - frequency dt) then Raise IndexError
  else Return [L + start].
Proof.
  intros Hf. unfold sample_times. cbn [ceil exact fabs fmul].
  set (x := Qabs L * frequency dt).
  assert (Hx : Qabs L * - frequency dt == - x) by (unfold x; ring).
  assert (Hax : x <= 0).
  { unfold x. pose proof (Qabs_nonneg L) as Ha.
    setoid_replace (Qabs L * frequency dt) with (- (Qabs L * - frequency dt)) by ring.
    assert (0 <= Qabs L * - frequency dt) by (apply Qmult_le_0_compat; lra).
    lra. }
  destruct (Qle_bool 1 (Qabs L * - frequency dt)) eqn:Eb.
  - apply Qle_bool_iff in Eb. rewrite Hx in Eb.
    assert (HN : (Qceiling x <= -1)%Z).
    { rewrite <- (Qceiling_Z (-1)). apply Qceiling_resp_le.
      change (inject_Z (-1)) with (-(1)). lra. }
    unfold grid, range.
    replace (Z.to_nat (Qceiling x + 1)) with 0%nat by lia. reflexivity.
  - assert (Hlt : - x < 1).
    { apply Qnot_le_lt. intros Hle. rewrite <- Hx in Hle.
      apply Qle_bool_iff in Hle. congruence. }
    assert (HN : Qceiling x = 0%Z).
    { pose proof (Qle_ceiling x) as H1. pose proof (Qceiling_lt x) as H2.
      assert (H3 : (Qceiling x <= 0)%Z).
      { rewrite <- (Qceiling_Z 0). apply Qceiling_resp_le. exact Hax. }
      assert (H4 : (-1 < Qceiling x)%Z).
      { rewrite Zlt_Qlt. change (inject_Z (-1)) with (-(1)). lra. }
      lia. }
    rewrite HN, grid_steps by lia. reflexivity.
Qed.

End ExactEdges.

(** X16 (_read). On the doubles the node runs on, a duration that is an
    infinity or a NaN never gives a grid, whatever the period, which is not
    null, and the start: [int(ceil(...))] raises [OverflowError] or
    [ValueError]. *)
Theorem non_finite_duration_raises (dt start L : float) :
  (dt =? of_int 0)%py = false ->
  finite L = false ->
  exists e,
    sample_times dt start L = Raise e
    /\ (e = ValueError \/ e = OverflowError).
Proof.
  unfold finite. intros _ HL.
  unfold sample_times. cbn [ceil fabs fmul binary64]. unfold float_ceil.
  rewrite mul_spec, abs_spec.
  destruct (Prim2SF L) as [ s | s | | s m e ]; try discriminate;
    destruct (Prim2SF (frequency dt)) as [ s' | s' | | s' m' e' ]; cbn;
    eexists; (split; [ reflexivity | tauto ]).
Qed.

(** * The throttle of publish *)

Section ExactThrottle.

Local Open Scope Q_scope.

Variable env : Env (F := Q).
Variable dt : Q.

(** What a turn of the loop does to the count of samples. *)
Lemma turn_count (advance : Q) (start : Z) (s s' : locals) (w w' : world) :
  publish_turn env dt advance start s w = (Return s', w') ->
  n s' = n s
  \/ (n s' = S (n s) /\ inject_Z (Z.of_nat (n s)) < nstar s).
Proof.
  unfold publish_turn. cbn [flt of_int exact].
  destruct (Qltb (inject_Z (Z.of_nat (n s))) (nstar s)) eqn:Eb.
  - apply Qltb_lt in Eb.
    unfold time_now, times_at, len_times, get_times, remote, ret, raise, bind.
    cbn [fst snd times trace ncalls nreads nsleeps].
    destruct (times w) as [ g | ]; [ | discriminate ].
    destruct (nth_error g (n s)); [ | discriminate ].
    cbn [fst snd times trace ncalls nreads nsleeps].
    destruct (fault env (ncalls w)); [ discriminate | ].
    cbn [fst snd times trace ncalls nreads nsleeps n].
    intros [= <- _]. right. split; [ reflexivity | exact Eb ].
  - unfold rate_sleep, time_now, len_times, get_times, ret, raise, bind.
    cbn [fst snd times trace ncalls nreads nsleeps].
    destruct (match arrival env (nsleeps w) with
              | Some g => Some g
              | None => times w
              end); [ | discriminate ].
    cbn [n]. intros [= <- _]. now left.
Qed.

Lemma watermark_step (w0 : world) (g : list Q) (advance : Q) (start : Z)
  (s s' : locals) (w w' : world) :
  0 < dt -> monotone_clock env ->
  times w0 = Some g -> quiet_from env (nsleeps w0) ->
  in_publish env dt w0 advance start s w ->
  publish_turn env dt advance start s w = (Return s', w') ->
  nstar s <= nstar s'.
Proof.
  intros Hdt Hmono Hw0 Hq Hin E.
  destruct (in_publish_invariant env dt w0 g advance start s w Hdt Hmono Hw0 Hq Hin)
    as (Hwg & Hns & Hstart & HM & j & Hj & Hle).
  destruct (turn_watermark env dt g advance start s s' w w' Hwg (Hq _ Hns) E)
    as (j' & Hj' & Hs' & _).
  rewrite Hs'. apply pymin_glb; [ | exact HM ].
  eapply Qle_trans; [ exact Hle | ].
  assert (Hf : 0 < frequency dt) by now apply frequency_pos.
  assert (Ht : to_sec (now_at env j - start) <= to_sec (now_at env j' - start)).
  { apply to_sec_le. assert (now_at env j <= now_at env j')%Z
      by (apply Hmono; lia). lia. }
  apply Qplus_le_r. apply Qmult_le_compat_r; [ exact Ht | ].
  now apply Qlt_le_weak.
Qed.

(** X17 (publish). The throttle of [publish]: in exact arithmetic, with a
    clock that never goes back, a positive period and no read served
    meanwhile, the number of samples sent so far never runs more than one
    sample past the watermark, and never past the size of the grid. So at
    every test of the loop condition it is below
    0.150 * frequency + t * frequency + 1, for t the time between the start
    of [publish] and one of the clock readings made since. *)
Theorem publish_never_overruns (w0 : world) (g : list Q) (advance : Q)
  (start : Z) (s : locals) (w : world) :
  0 < dt -> monotone_clock env ->
  times w0 = Some g -> quiet_from env (nsleeps w0) ->
  in_publish env dt w0 advance start s w ->
  inject_Z (Z.of_nat (n s)) < nstar s + 1
  /\ (n s <= List.length g)%nat
  /\ exists j, (nreads w0 <= j < nreads w)%nat
        /\ inject_Z (Z.of_nat (n s))
           < (150 # 1000) * frequency dt
             + to_sec (now_at env j - now_at env (nreads w0)) * frequency dt + 1.
Proof.
  intros Hdt Hmono Hw0 Hq Hin.
  assert (Hf : 0 < frequency dt) by now apply frequency_pos.
  assert (Hmain : inject_Z (Z.of_nat (n s)) < nstar s + 1
                  /\ (n s <= List.length g)%nat
                  /\ advance == (150 # 1000) * frequency dt).
  { induction Hin as [ s w E | s s' w w' g' Hin IH Hw Hn E ].
    - destruct w0 as [ts tr0 nc nr ns]. cbn [times] in Hw0. subst ts.
      unfold publish_enter, time_now, len_times, loginfo, emit, get_times,
        ret, raise, bind in E.
      cbn [fst snd times trace ncalls nreads nsleeps] in E.
      injection E as <- _ <- _. cbn [n nstar].
      split; [ | split; [ lia | reflexivity ] ].
      assert (H0 : 0 <= pymin (of_int 150 / of_int 1000 * frequency dt)%py
                          (of_int (Z.of_nat (List.length g)))).
      { apply pymin_glb.
        - cbn [fdiv fmul of_int exact].
          setoid_replace (inject_Z 150 / inject_Z 1000) with (150 # 1000)
            by reflexivity.
          apply Qmult_le_0_compat; [ discriminate | now apply Qlt_le_weak ].
        - cbn [of_int exact]. rewrite <- (Zle_Qle 0). lia. }
      change (inject_Z (Z.of_nat 0)) with 0.
      set (p := pymin _ _) in *. lra.
    - destruct IH as (IHn & IHlen & IHadv).
      pose proof (watermark_step w0 g advance start s s' w w' Hdt Hmono Hw0 Hq Hin E)
        as Hstep.
      destruct (in_publish_invariant env dt w0 g advance start s w Hdt Hmono Hw0 Hq Hin)
        as (Hwg & _).
      rewrite Hwg in Hw. injection Hw as <-.
      destruct (turn_count advance start s s' w w' E) as [ -> | [ -> Hlt ] ].
      + split; [ lra | split; [ lia | exact IHadv ] ].
      + split; [ | split; [ lia | exact IHadv ] ].
        rewrite Nat2Z.inj_succ. unfold Z.succ. rewrite inject_Z_plus.
        change (inject_Z 1) with 1. lra. }
  destruct Hmain as (Hn & Hlen & Hadv).
  split; [ exact Hn | ]. split; [ exact Hlen | ].
  destruct (in_publish_invariant env dt w0 g advance start s w Hdt Hmono Hw0 Hq Hin)
    as (_ & _ & Hstart & _ & j & Hj & Hle).
  exists j. split; [ exact Hj | ].
  rewrite <- Hstart, <- Hadv. lra.
Qed.

End ExactThrottle.

(** * A whole session *)

Section Session.

Context {F : Type} `{PyFloat F}.
Variable env : Env (F := F).
Variable dt : F.
Local Open Scope py_scope.

(** X18 (read, _read, publish, getQueueSize). A whole session, in the
    arithmetic the node runs on, whatever it is: when the grid of the path
    can be built, no remote call raises, no other read is served and the
    throttle opens, [read] returns and stores the grid, [getQueueSize] then
    answers N + 1 for N = int(ceil(abs(L) * frequency)) as that arithmetic
    computes it, the [publish] that follows returns after a compute call on
    each sample time of the grid, in order, and [getQueueSize] after it
    raises [TypeError]. *)
Theorem read_then_publish (data : Z) (w : world (F := F)) (ts : list F)
  (k : nat) :
  sample_times dt (of_int 0) (path_length env data) = Return ts ->
  reliable_from env (ncalls w) ->
  quiet_from env (nsleeps w) ->
  throttle_opens env dt (List.length ts) (nreads w) k = true ->
  exists w1 N,
    read env dt data w = (Return tt, w1)
    /\ times w1 = Some ts
    /\ ceil (fabs (path_length env data) * frequency dt) = Return N
    /\ (0 <= N)%Z
    /\ fst (getQueueSize w1) = Return (Z.to_nat N + 1)%nat
    /\ exists fuel w2 tr,
         publish env dt fuel w1 = Some (Return tt, w2)
         /\ trace w2 = (trace w1 ++ tr)%list
         /\ computed tr = ts
         /\ fst (getQueueSize w2) = Raise TypeError.
Proof.
  intros Hs Hr Hq Ho.
  pose proof (sample_times_nonempty dt _ _ ts Hs) as Hne.
  unfold sample_times in Hs.
  destruct (ceil (fabs (path_length env data) * frequency dt)) as [ N | e ] eqn:EN;
    [ | discriminate ].
  assert (HN : (0 <= N)%Z).
  { destruct (Z.le_gt_cases 0 N) as [ | Hneg ]; [ assumption | exfalso ].
    unfold grid, range in Hs.
    replace (Z.to_nat (N + 1)) with 0%nat in Hs by lia. discriminate Hs. }
  pose proof (grid_length dt _ _ _ ts Hs) as Hlen.
  assert (Hfault : forall i, fault env (i + ncalls w) = None)
    by (intros i; apply Hr; lia).
  pose proof (Hfault 0%nat) as H0. pose proof (Hfault 1%nat) as H1.
  pose proof (Hfault 2%nat) as H2. pose proof (Hfault 3%nat) as H3.
  pose proof (Hfault 4%nat) as H4. pose proof (Hfault 5%nat) as H5.
  pose proof (Hfault 6%nat) as H6. cbn [Nat.add] in *.
  assert (Eread : exists w1, read env dt data w = (Return tt, w1)
                             /\ times w1 = Some ts
                             /\ nsleeps w1 = nsleeps w
                             /\ nreads w1 = nreads w
                             /\ (ncalls w <= ncalls w1)%nat).
  { unfold read, _read, remote_val, loginfo, emit, remote, lift, set_times,
      ret, raise, bind.
    repeat progress
      (cbn [fst snd times trace ncalls nreads nsleeps];
       rewrite ?H0, ?H1, ?H2, ?H3, ?H4, ?H5, ?H6, ?EN, ?Hs).
    eexists. split; [ reflexivity | ]. cbn [times nsleeps nreads ncalls].
    repeat split; lia. }
  destruct Eread as (w1 & Er & Ht1 & Hs1 & Hr1 & Hc1).
  exists w1, N. split; [ exact Er | ]. split; [ exact Ht1 | ].
  split; [ reflexivity | ]. split; [ exact HN | ].
  split.
  { unfold getQueueSize, len_times, get_times, ret, bind. rewrite Ht1.
    cbn [fst]. rewrite Hlen. f_equal. lia. }
  destruct (publish_returns env dt ts w1 k) as
    (fuel & w2 & tr & Hrun & Hnone & Htr & Hc & _).
  - exact Hne.
  - exact Ht1.
  - rewrite Hs1. exact Hq.
  - intros j Hj. apply Hr. lia.
  - rewrite Hr1. exact Ho.
  - exists fuel, w2, tr. split; [ exact Hrun | ]. split; [ exact Htr | ].
    split; [ exact Hc | ].
    unfold getQueueSize, len_times, get_times, raise, bind. now rewrite Hnone.
Qed.

End Session.

(** * The connection to the server *)

Section LinkProperties.

Variable server : Server.

Ltac step E :=
  match type of E with
  | context [refuses server ?k] => destruct (refuses server k) eqn:?
  end; cbn [discretization made fst snd] in E.

Ltac last_call_went_through :=
  cbn [discretization made];
  rewrite ?length_app; cbn [List.length];
  match goal with
  | Hr : refuses server ?k = None |- refuses server ?j = None =>
      replace j with k by (rewrite ?length_app; cbn [List.length]; lia);
      exact Hr
  end.

(** X19 (_connect). When [_connect] returns, [self.discretization] is
    bound to an object d whose [initializeRosNode] was the last call made
    and went through. Either d is the object held before and [_connect] made
    its three calls and that initialisation only, or the last two calls are
    [getDiscretization] and the initialisation of d, and d is what that
    [getDiscretization] answered. *)
Theorem connect_binds_an_initialised_discretization (l l' : link) :
  _connect server l = (Return tt, l') ->
  exists d,
    discretization l' = Some d
    /\ refuses server (List.length (made l') - 1) = None
    /\ ((discretization l = Some d
         /\ made l' = (made l ++ [SuperConnect; LoadServerPlugin; NewClient;
                                  InitializeRosNode d])%list)
        \/ (exists before,
              made l' = (before ++ [GetDiscretization; InitializeRosNode d])%list
              /\ d = serves server (List.length before))).
Proof.
  unfold _connect, fetch_discretization, ltry, lbind, lret, ask,
    set_discretization.
  intros E. cbn [discretization made fst snd] in E.
  step E; [ discriminate | ]. step E; [ discriminate | ].
  step E; [ discriminate | ].
  destruct (discretization l) as [ d | ] eqn:Hd;
    cbn [discretization made fst snd] in E.
  - step E.
    + step E; [ discriminate | ]. step E; [ discriminate | ].
      injection E as <-. eexists. split; [ reflexivity | ].
      split; [ last_call_went_through | ].
      right. eexists. split; [ cbn [made]; rewrite <- app_assoc; reflexivity | ].
      reflexivity.
    + injection E as <-. exists d. split; [ reflexivity | ].
      split; [ last_call_went_through | ].
      left. split; [ reflexivity | ]. cbn [made]. now rewrite <- !app_assoc.
  - step E; [ discriminate | ]. step E; [ discriminate | ].
    injection E as <-. eexists. split; [ reflexivity | ].
    split; [ last_call_went_through | ].
    right. eexists. split; [ cbn [made]; rewrite <- app_assoc; reflexivity | ].
    reflexivity.
Qed.

(** X20 (_connect). A discretization whose initialisation goes through is
    kept: on a server that answers every call, [_connect] makes four calls
    and requests no other discretization. *)
Theorem connect_keeps_a_live_discretization (l : link) (d : discretization_handle) :
  discretization l = Some d ->
  (forall k, (List.length (made l) <= k)%nat -> refuses server k = None) ->
  _connect server l =
  (Return tt,
   {| discretization := Some d;
      made := made l ++ [SuperConnect; LoadServerPlugin; NewClient;
                         InitializeRosNode d] |}).
Proof.
  intros Hd Hok.
  unfold _connect, fetch_discretization, ltry, lbind, lret, ask,
    set_discretization.
  cbn [discretization made fst snd].
  rewrite (Hok (List.length (made l))) by lia. cbn [discretization made fst snd].
  rewrite Hok by (rewrite ?length_app; cbn [List.length]; lia).
  cbn [discretization made fst snd].
  rewrite Hok by (rewrite ?length_app; cbn [List.length]; lia).
  cbn [discretization made fst snd]. rewrite Hd.
  rewrite Hok by (rewrite ?length_app; cbn [List.length]; lia).
  cbn [discretization made fst snd]. now rewrite <- !app_assoc.
Qed.

(** X21 (_connect). A discretization whose initialisation raises is
    replaced: the exception is swallowed, whatever it is, another object is
    requested from the server, bound and initialised. The object held before
    is neither shut down nor deleted. *)
Theorem connect_replaces_a_dead_discretization (l : link)
  (d : discretization_handle) (e : exn) :
  discretization l = Some d ->
  refuses server (List.length (made l) + 3) = Some e ->
  (forall k, k <> (List.length (made l) + 3)%nat -> refuses server k = None) ->
  let d' := serves server (List.length (made l) + 4) in
  _connect server l =
  (Return tt,
   {| discretization := Some d';
      made := made l ++ [SuperConnect; LoadServerPlugin; NewClient;
                         InitializeRosNode d; GetDiscretization;
                         InitializeRosNode d'] |}).
Proof.
  intros Hd Hko Hok d'.
  unfold _connect, fetch_discretization, ltry, lbind, lret, ask,
    set_discretization.
  cbn [discretization made fst snd].
  rewrite (Hok (List.length (made l))) by lia. cbn [discretization made fst snd].
  rewrite Hok by (rewrite ?length_app; cbn [List.length]; lia).
  cbn [discretization made fst snd].
  rewrite Hok by (rewrite ?length_app; cbn [List.length]; lia).
  cbn [discretization made fst snd]. rewrite Hd.
  replace (List.length (((made l ++ [SuperConnect]) ++ [LoadServerPlugin])
                        ++ [NewClient]))
    with (List.length (made l) + 3)%nat
    by (rewrite ?length_app; cbn [List.length]; lia).
  rewrite Hko. cbn [discretization made fst snd].
  rewrite Hok by (rewrite ?length_app; cbn [List.length]; lia).
  cbn [discretization made fst snd].
  rewrite Hok by (rewrite ?length_app; cbn [List.length]; lia).
  cbn [discretization made fst snd].
  unfold d'. rewrite <- !app_assoc. cbn [app].
  replace (List.length (made l ++ [SuperConnect; LoadServerPlugin; NewClient;
                                   InitializeRosNode d]))
    with (List.length (made l) + 4)%nat
    by (rewrite ?length_app; cbn [List.length]; lia).
  reflexivity.
Qed.

(** X22 (_ros_shutdown). [_ros_shutdown] does nothing when there is no
    discretization. Otherwise it calls [shutdownRos] then [deleteThis] on
    it, the second only if the first did not raise, and lets an exception of
    either out. In every case [self.discretization] still names the object
    afterwards, deleted or not. *)
Theorem shutdown_keeps_the_handle (l l' : link) (r : outcome unit) :
  _ros_shutdown server l = (r, l') ->
  discretization l' = discretization l
  /\ match discretization l with
     | None => made l' = made l /\ r = Return tt
     | Some d =>
         (made l' = (made l ++ [ShutdownRos d; DeleteThis d])%list
          /\ refuses server (List.length (made l)) = None
          /\ (r = Return tt <->
              refuses server (S (List.length (made l))) = None))
         \/ (made l' = (made l ++ [ShutdownRos d])%list
             /\ exists e, r = Raise e
                          /\ refuses server (List.length (made l)) = Some e)
     end.
Proof.
  unfold _ros_shutdown, lbind, lret, ask.
  destruct (discretization l) as [ d | ] eqn:Hd.
  - cbn [discretization made fst snd].
    destruct (refuses server (List.length (made l))) as [ e | ] eqn:E0;
      cbn [discretization made fst snd].
    + intros [= <- <-]. cbn [discretization made].
      split; [ first [ reflexivity | exact Hd ] | ].
      right. split; [ first [ reflexivity | exact Hd ] | ]. now exists e.
    + replace (List.length (made l ++ [ShutdownRos d]))
        with (S (List.length (made l)))
        by (rewrite length_app; cbn [List.length]; lia).
      destruct (refuses server (S (List.length (made l)))) as [ e | ] eqn:E1;
        intros [= <- <-]; cbn [discretization made];
        (split; [ first [ reflexivity | exact Hd ] | ]);
        left; rewrite <- app_assoc; (split; [ reflexivity | ]);
        (split; [ reflexivity | ]); split; congruence.
  - intros [= <- <-]. split; [ first [ reflexivity | exact Hd ] | ].
    split; reflexivity.
Qed.

End LinkProperties.

(** * More runs on the test bench *)

Section MoreBench.

Local Open Scope Q_scope.

Lemma flaky_quiet (k : nat) : quiet_from flaky k.
Proof. intros j _. reflexivity. Qed.

(** A [publish] whose second compute call raises: the three samples are
    still queued and nothing is published. *)
Lemma publish_done_iff_returns_witness :
  match publish flaky (1 # 100) 50 (holding grid3) with
  | Some (Raise _, w') =>
      times w' = Some grid3 /\ published (trace w') = []
  | _ => False
  end.
Proof.
  destruct (publish flaky (1 # 100) 50 (holding grid3))
    as [ [ [ [] | e ] w' ] | ] eqn:E.
  - vm_compute in E. discriminate E.
  - exact (publish_done_iff_returns flaky (1 # 100) 50 (holding grid3) w'
             (Raise e) (flaky_quiet 0) E).
  - vm_compute in E. discriminate E.
Defined.

(** [publish] before any read, and on an empty grid. *)
Lemma publish_without_samples_witness :
  publish calm (1 # 100) 0 idle = Some (Raise TypeError, idle)
  /\ exists w',
       publish calm (1 # 100) 1 (holding []) = Some (Raise ZeroDivisionError, w')
       /\ times w' = Some []
       /\ calls (trace w') = []
       /\ published (trace w') = [].
Proof.
  split.
  - exact (proj1 (publish_without_samples calm (1 # 100) 0 idle) eq_refl).
  - exact (proj2 (publish_without_samples calm (1 # 100) 0 (holding [])) eq_refl).
Defined.

(** [publishFirst] on a node that never reads: one second of sleeps. *)
Lemma publishFirst_is_bounded_witness :
  (nsleeps (snd (publishFirst calm idle)) = 1000)%nat
  /\ times (snd (publishFirst calm idle)) = None
  /\ ncalls (snd (publishFirst calm idle)) = 0%nat.
Proof.
  exact (proj2 (proj2 (proj2 (proj2
           (publishFirst_is_bounded calm idle (snd (publishFirst calm idle))
              (fst (publishFirst calm idle)) (surjective_pairing _)))))
           not_ready eq_refl).
Defined.

(** [publishFirst] when the compute call raises. *)
Lemma publishFirst_lets_failures_out_witness :
  publishFirst (bench 2000000 (fun _ => None)
                      (fun _ => Some (RemoteError "compute")))
               (holding grid3)
  = (Raise (RemoteError "compute"),
     {| times := Some grid3; trace := [Call (Compute 0)];
        ncalls := 1; nreads := 0; nsleeps := 0 |}).
Proof.
  exact (proj2 (publishFirst_lets_failures_out
                  (bench 2000000 (fun _ => None)
                         (fun _ => Some (RemoteError "compute")))
                  (holding grid3))
           0 [1 # 100; 2 # 100] (RemoteError "compute") eq_refl eq_refl).
Defined.

Lemma setJointNames_drops_root_joint_witness :
  setJointNames calm ["arm_joint"; "talos/root_joint"; "gripper"]%string idle
  = (Return true,
     {| times := None;
        trace := [Call Hpp; Call (SetJointNames ["arm_joint"; "gripper"]%string)];
        ncalls := 2; nreads := 0; nsleeps := 0 |})
  /\ (forall name,
        In name ["arm_joint"; "gripper"]%string <->
        In name ["arm_joint"; "talos/root_joint"; "gripper"]%string
        /\ ~ occurs_in "root_joint" name).
Proof.
  exact (setJointNames_drops_root_joint calm
           ["arm_joint"; "talos/root_joint"; "gripper"]%string idle
           eq_refl eq_refl).
Defined.

(** [resetTopics] whose second call raises, on a node that holds a grid. *)
Lemma resetTopics_keeps_the_grid_witness :
  times (snd (resetTopics flaky (holding grid3))) = Some grid3
  /\ fst (getQueueSize (snd (resetTopics flaky (holding grid3)))) = Return 3%nat
  /\ fst (resetTopics flaky (holding grid3)) <> Return tt.
Proof.
  destruct (resetTopics_keeps_the_grid flaky (holding grid3)
              (snd (resetTopics flaky (holding grid3)))
              (fst (resetTopics flaky (holding grid3)))
              (surjective_pairing _)) as (Ht & Hq & Hr & _).
  split; [ exact Ht | ]. split; [ exact Hq | ].
  intros E. apply Hr in E. destruct E as [_ E]. discriminate E.
Defined.

Lemma refused_without_raising_witness :
  fst (addCenterOfMass refusing "com" idle) = Raise UnboundLocalError
  /\ fst (addCenterOfMassVelocity refusing "com" idle) = Raise UnboundLocalError
  /\ fst (addOperationalFrameVelocity refusing "frame" idle)
     = Raise UnboundLocalError.
Proof.
  split; [ | split ].
  - exact (proj1 (proj1 (refused_without_raising refusing "com" idle
                           (fun _ _ => eq_refl)) eq_refl)).
  - exact (proj1 (proj1 (proj2 (refused_without_raising refusing "com" idle
                                  (fun _ _ => eq_refl))) eq_refl)).
  - exact (proj1 (proj2 (proj2 (refused_without_raising refusing "frame" idle
                                  (fun _ _ => eq_refl))) eq_refl)).
Defined.

(** The registration raises: three calls, the computation object is not
    released. *)
Lemma centre_of_mass_servant_release_witness :
  calls (trace (snd (addCenterOfMass third_call_fails "com" idle)))
  = [Hpp; GetCenterOfMassComputation "com"; AddCenterOfMass "com" 0%Z Position]
  /\ ncalls (snd (addCenterOfMass third_call_fails "com" idle)) = 3%nat
  /\ times (snd (addCenterOfMass third_call_fails "com" idle)) = None.
Proof.
  exact (proj1 (centre_of_mass_servant_release third_call_fails "com" idle)
           (fst (addCenterOfMass third_call_fails "com" idle))
           (snd (addCenterOfMass third_call_fails "com" idle))
           (surjective_pairing _)).
Defined.

(** Under Python 2, a registration that raises is answered [False]. *)
Lemma centre_of_mass_outcomes_witness :
  interpreter third_call_fails = Python2
  /\ raised_between third_call_fails 0
       (ncalls (snd (addCenterOfMass third_call_fails "com" idle))).
Proof.
  exact (proj1 (proj2 (proj1 (centre_of_mass_outcomes third_call_fails "com" idle)
                         (fst (addCenterOfMass third_call_fails "com" idle))
                         (snd (addCenterOfMass third_call_fails "com" idle))
                         (surjective_pairing _)))
           eq_refl).
Defined.

(** [setPath] raises: three calls, the path handle is not released. *)
Lemma read_calls_in_order_witness :
  calls (trace (snd (readSub third_call_fails (1 # 100) 4 0 (7 # 100) idle)))
  = [Hpp; GetPath 4%Z; SetPath 4%Z]
  /\ ncalls (snd (readSub third_call_fails (1 # 100) 4 0 (7 # 100) idle)) = 3%nat
  /\ (3%nat = 5%nat <->
      (exists ts, sample_times (1 # 100) 0 (7 # 100) = Return ts)
      /\ forall i, (i < 4)%nat -> fault third_call_fails (i + 0) = None)
  /\ (fst (readSub third_call_fails (1 # 100) 4 0 (7 # 100) idle) = Return tt
      <-> 3%nat = 5%nat /\ fault third_call_fails 4 = None)
  /\ (forall e, sample_times (1 # 100) 0 (7 # 100) = Raise e ->
        fst (readSub third_call_fails (1 # 100) 4 0 (7 # 100) idle) = Raise e).
Proof.
  exact (read_calls_in_order third_call_fails (1 # 100) 4 0 (7 # 100) idle
           (snd (readSub third_call_fails (1 # 100) 4 0 (7 # 100) idle))
           (fst (readSub third_call_fails (1 # 100) 4 0 (7 # 100) idle))
           (surjective_pairing _)).
Defined.

(** The grid of the doubles 0.01 and 0.07: nine sample times. *)
Lemma sample_times_shape_witness :
  match sample_times period_10ms (of_int 0) duration_70ms with
  | Return ts =>
      exists N,
        ceil (fabs duration_70ms * frequency period_10ms)%py = Return N
        /\ (0 <= N)%Z
        /\ List.length ts = S (Z.to_nat N)
        /\ last ts (of_int 0) = (duration_70ms + of_int 0)%py
        /\ forall i, (i < Z.to_nat N)%nat ->
             nth_error ts i
             = Some (of_int (if (duration_70ms <? of_int 0)%py then -1 else 1)
                     * of_int (Z.of_nat i) / frequency period_10ms
                     + of_int 0)%py
  | Raise _ => False
  end.
Proof.
  destruct (sample_times period_10ms (of_int 0) duration_70ms)
    as [ ts | e ] eqn:E.
  - exact (sample_times_shape period_10ms (of_int 0) duration_70ms ts eq_refl E).
  - vm_compute in E. discriminate E.
Defined.

(** A read of 70 ms that starts at 1/2 s. *)
Lemma sample_times_shifts_with_start_witness :
  match sample_times (1 # 100) (1 # 2) (7 # 100),
        sample_times (1 # 100) 0 (7 # 100) with
  | Return ts, Return ts0 => Forall2 (fun t t0 => t == t0 + (1 # 2)) ts ts0
  | Raise e, Raise e0 => e = e0
  | _, _ => False
  end.
Proof.
  apply (sample_times_shifts_with_start (1 # 100) (1 # 2) (7 # 100)).
  intros E. discriminate E.
Defined.

Lemma zero_duration_gives_one_sample_witness :
  exists t, sample_times (1 # 100) (1 # 2) 0 = Return [t] /\ t == 1 # 2.
Proof.
  apply (zero_duration_gives_one_sample (1 # 100) (1 # 2) 0).
  - intros E. discriminate E.
  - reflexivity.
Defined.

(** A period of -10 ms and a path of 70 ms. *)
Lemma negative_frequency_grid_witness :
  sample_times (- (1 # 100)) 0 (7 # 100) = Raise IndexError.
Proof.
  exact (negative_frequency_grid (- (1 # 100)) 0 (7 # 100) eq_refl).
Defined.

Lemma non_finite_duration_raises_witness :
  exists e,
    sample_times period_10ms (of_int 0) infinity = Raise e
    /\ (e = ValueError \/ e = OverflowError).
Proof.
  apply (non_finite_duration_raises period_10ms (of_int 0) infinity);
    reflexivity.
Defined.

(** At the first test of the loop: no sample sent, a watermark of 15. *)
Lemma publish_never_overruns_witness :
  match publish_enter calm (1 # 100) (holding grid20) with
  | (Return (advance, start, s), w) =>
      inject_Z (Z.of_nat (n s)) < nstar s + 1 /\ (n s <= 20)%nat
  | (Raise _, _) => False
  end.
Proof.
  destruct (publish_enter calm (1 # 100) (holding grid20))
    as [ [ [ [advance start] s ] | e ] w ] eqn:E;
    [ | vm_compute in E; discriminate E ].
  destruct (publish_never_overruns calm (1 # 100) (holding grid20) grid20
              advance start s w eq_refl calm_monotone eq_refl (calm_quiet 0)
              (in_publish_enter calm (1 # 100) (holding grid20) E))
    as (Hn & Hlen & _).
  split; [ exact Hn | exact Hlen ].
Defined.

(** A path of 70 ms read and published at 100 Hz, on the doubles: nine
    sample times. *)
Lemma read_then_publish_witness :
  exists w1 N,
    read (bench64 2000000 duration_70ms) period_10ms 0 idle = (Return tt, w1)
    /\ times w1
       = Some [0; 0x1.47ae147ae147bp-7; 0x1.47ae147ae147bp-6;
               0x1.eb851eb851eb8p-6; 0x1.47ae147ae147bp-5;
               0x1.999999999999ap-5; 0x1.eb851eb851eb8p-5;
               0x1.1eb851eb851ecp-4; 0x1.1eb851eb851ecp-4]%float
    /\ ceil (fmul (fabs duration_70ms) (frequency period_10ms)) = Return N
    /\ (0 <= N)%Z
    /\ fst (getQueueSize w1) = Return (Z.to_nat N + 1)%nat
    /\ exists fuel w2 tr,
         publish (bench64 2000000 duration_70ms) period_10ms fuel w1
         = Some (Return tt, w2)
         /\ trace w2 = (trace w1 ++ tr)%list
         /\ computed tr
            = [0; 0x1.47ae147ae147bp-7; 0x1.47ae147ae147bp-6;
               0x1.eb851eb851eb8p-6; 0x1.47ae147ae147bp-5;
               0x1.999999999999ap-5; 0x1.eb851eb851eb8p-5;
               0x1.1eb851eb851ecp-4; 0x1.1eb851eb851ecp-4]%float
         /\ fst (getQueueSize w2) = Raise TypeError.
Proof.
  apply (read_then_publish (bench64 2000000 duration_70ms) period_10ms 0 idle
           _ 0).
  - vm_compute. reflexivity.
  - intros j _. reflexivity.
  - intros j _. reflexivity.
  - vm_compute. reflexivity.
Defined.

(** The first [_connect] of a node. *)
Lemma connect_binds_an_initialised_discretization_witness :
  exists d,
    Some 3%Z = Some d
    /\ refuses willing 4 = None
    /\ ((discretization unconnected = Some d
         /\ [SuperConnect; LoadServerPlugin; NewClient; GetDiscretization;
             InitializeRosNode 3%Z]
            = [SuperConnect; LoadServerPlugin; NewClient; InitializeRosNode d])
        \/ (exists before,
              [SuperConnect; LoadServerPlugin; NewClient; GetDiscretization;
               InitializeRosNode 3%Z]
              = (before ++ [GetDiscretization; InitializeRosNode d])%list
              /\ d = serves willing (List.length before))).
Proof.
  apply (connect_binds_an_initialised_discretization willing unconnected
           {| discretization := Some 3%Z;
              made := [SuperConnect; LoadServerPlugin; NewClient;
                       GetDiscretization; InitializeRosNode 3%Z] |}).
  reflexivity.
Defined.

Lemma connect_keeps_a_live_discretization_witness :
  _connect willing connected =
  (Return tt,
   {| discretization := Some 7%Z;
      made := [SuperConnect; LoadServerPlugin; NewClient; InitializeRosNode 7%Z] |}).
Proof.
  apply (connect_keeps_a_live_discretization willing connected 7%Z).
  - reflexivity.
  - intros k _. reflexivity.
Defined.

Lemma connect_replaces_a_dead_discretization_witness :
  _connect stale connected =
  (Return tt,
   {| discretization := Some 4%Z;
      made := [SuperConnect; LoadServerPlugin; NewClient; InitializeRosNode 7%Z;
               GetDiscretization; InitializeRosNode 4%Z] |}).
Proof.
  apply (connect_replaces_a_dead_discretization stale connected 7%Z
           (RemoteError "object deleted")).
  - reflexivity.
  - reflexivity.
  - intros k Hk. cbn [stale refuses made connected List.length Nat.add] in *.
    destruct (Nat.eqb_spec k 3) as [ -> | _ ]; [ now elim Hk | reflexivity ].
Defined.

(** The handle is still bound once the object has been deleted. *)
Lemma shutdown_keeps_the_handle_witness :
  discretization (snd (_ros_shutdown willing connected)) = Some 7%Z
  /\ made (snd (_ros_shutdown willing connected))
     = [ShutdownRos 7%Z; DeleteThis 7%Z].
Proof.
  destruct (shutdown_keeps_the_handle willing connected
              (snd (_ros_shutdown willing connected))
              (fst (_ros_shutdown willing connected))
              (surjective_pairing _)) as (Hd & [ (Hm & _) | (_ & e & _ & He) ]).
  - split; [ exact Hd | exact Hm ].
  - discriminate He.
Defined.

End MoreBench.
